(** * AppDashboard: log ingestion, paginated log viewing and cache refresh

    A shallow embedding of the log and refresh handlers of
    [AppDashboard/dashboard.py]:

    - [LogUploadPage.post]: host registration and the reversed-time record key;
    - [LogServiceHostPage.get]: the paginated log viewer;
    - [AppUploadPage.post], [AppDeletePage.post]: the refresh tasks they enqueue;
    - [StatusRefreshPage]: the refresh handler run for every delivered task.

    The Datastore kinds are association lists kept in ascending key order, the
    order in which the Datastore scans a kind.  Handlers are computations in a
    state-and-exception monad over the Datastore: a raised exception keeps the
    writes made before it, as in the Python code. *)

From Stdlib Require Import ZArith List String Ascii Bool Lia QArith_base Sorted.
Import ListNotations.

Local Open Scope string_scope.
Local Open Scope Z_scope.

(** ** Python's [str] on integers *)

Module PyInt.

(** The character of a decimal digit [0..9]. *)
Definition digit_char (d : Z) : ascii := ascii_of_nat (48 + Z.to_nat d).

(** Digits of a non-negative integer, least significant first, pushed in
    front of [acc]; stops at the leading digit. *)
Fixpoint str_digits (fuel : nat) (n : Z) (acc : string) : string :=
  match fuel with
  | O => acc
  | S f =>
      let acc' := String (digit_char (n mod 10)) acc in
      if n <? 10 then acc' else str_digits f (n / 10) acc'
  end.

(** More steps than [n] has decimal digits. *)
Definition digits_fuel (n : Z) : nat := S (Z.to_nat (Z.log2 n)).

(** [str(n)] for a Python [int] or [long]: a minus sign for negatives, no
    leading zeros, no padding. *)
Definition str (n : Z) : string :=
  if n <? 0
  then String "-" (str_digits (digits_fuel (- n)) (- n) "")
  else str_digits (digits_fuel n) n "".

(** Exactly [k] decimal digits of [n], most significant first. *)
Fixpoint fixed_digits (k : nat) (n : Z) (acc : string) : string :=
  match k with
  | O => acc
  | S k' => fixed_digits k' (n / 10) (String (digit_char (n mod 10)) acc)
  end.

End PyInt.

(** ** The reversed-time record key ([LogUploadPage.post], lines 783-785) *)

(** [(2**34 - the_time) * 1000000] *)
Definition reversed_time (the_time : Z) : Z := (2 ^ 34 - the_time) * 1000000.

(** The key fragment of a timestamp: [str(reversed_time)]. *)
Definition encode (the_time : Z) : string := PyInt.str (reversed_time the_time).

(** [key_name = service_name + host + str(reversed_time)] *)
Definition key_name (service_name host : string) (the_time : Z) : string :=
  (service_name ++ host ++ encode the_time)%string.

(** The width of the key fragment of present-day timestamps. *)
Definition KEY_WIDTH : nat := 17.

(** The spec's representable window (section 4.1): the timestamp is not
    negative after subtraction and its fragment does not exceed the fixed
    width. *)
Definition representable (t : Z) : Prop :=
  0 <= 2 ^ 34 - t /\ (String.length (encode t) <= KEY_WIDTH)%nat.

(** The timestamps whose fragment has exactly [KEY_WIDTH] digits. *)
Definition full_width (t : Z) : Prop :=
  10 ^ 10 <= 2 ^ 34 - t < 10 ^ 11.

(** ** Exceptions and the handler monad *)

Inductive Exn : Type :=
| ValueError
| OverflowError
| BadValueError
| TransientError
| AppHelperException (msg : string).

(** A computation over a state [St] that returns a value or raises; the state
    reached when it raises is kept. *)
Definition Handler (St A : Type) : Type := St -> (Exn + A) * St.

Definition ret {St A} (a : A) : Handler St A := fun st => (inr a, st).

Definition raise {St A} (e : Exn) : Handler St A := fun st => (inl e, st).

Definition bind {St A B} (m : Handler St A) (k : A -> Handler St B)
  : Handler St B :=
  fun st =>
    match m st with
    | (inl e, st') => (inl e, st')
    | (inr a, st') => k a st'
    end.

(** [try: m except Exception as err: h err] *)
Definition try_except {St A} (m : Handler St A) (h : Exn -> Handler St A)
  : Handler St A :=
  fun st =>
    match m st with
    | (inl e, st') => h e st'
    | (inr a, st') => (inr a, st')
    end.

Definition gets {St A} (f : St -> A) : Handler St A := fun st => (inr (f st), st).

Definition modify {St} (f : St -> St) : Handler St unit := fun st => (inr tt, f st).

Declare Scope handler_scope.
Delimit Scope handler_scope with handler.
Notation "x <- m ;; k" := (bind m (fun x => k))
  (at level 61, m at next level, right associativity) : handler_scope.
Notation "m ;; k" := (bind m (fun _ => k))
  (at level 61, right associativity) : handler_scope.

(** [for x in xs: body x] *)
Fixpoint for_each {St A} (xs : list A) (body : A -> Handler St unit)
  : Handler St unit :=
  match xs with
  | [] => ret tt
  | x :: rest => bind (body x) (fun _ => for_each rest body)
  end.

(** ** Datastore kinds *)

Module Kind.
Section Kind.
Context {V : Type}.

(** The entities of one kind with their key names, in key order. *)
Definition t : Type := list (string * V).

Definition empty : t := [].

(** [Model.get_by_id(id)], for a key name the Datastore takes.  (ndb raises
    for an empty key name and for one of more than 500 bytes; the theorems
    that need the lookup or the write to go through say so with
    [storable_name].) *)
Fixpoint get_by_id (id : string) (k : t) : option V :=
  match k with
  | [] => None
  | (id', v) :: rest => if String.eqb id id' then Some v else get_by_id id rest
  end.

(** [entity.put()] for the entity of key name [id]: replaces the stored
    entity of that key or inserts it at its place in key order. *)
Fixpoint put (id : string) (v : V) (k : t) : t :=
  match k with
  | [] => [(id, v)]
  | (id', v') :: rest =>
      match String.compare id id' with
      | Eq => (id, v) :: rest
      | Lt => (id, v) :: k
      | Gt => (id', v') :: put id v rest
      end
  end.

Definition keys (k : t) : list string := map fst k.

(** Key names strictly ascending: a kind holds one entity per key. *)
Definition well_formed (k : t) : Prop :=
  StronglySorted (fun a b => String.ltb a b = true) (keys k).

(** How many stored entities have key name [id]. *)
Definition count (id : string) (k : t) : nat :=
  List.length (filter (String.eqb id) (keys k)).
End Kind.
Arguments t : clear implicits.
End Kind.

(** ** The models ([LoggedService], [AppLogLine], [RequestLogLine]) *)

(** A [datetime], as seconds since the epoch (local time taken as UTC). *)
Definition datetime : Type := Z.

Record LoggedService : Type := { hosts : list string }.

Record AppLogLine : Type :=
  { message : string; level : Z; timestamp : datetime }.

Record RequestLogLine : Type :=
  { service_name : string; host : string; app_logs : list AppLogLine }.

Record Datastore : Type :=
  { logged_services : Kind.t LoggedService;
    request_log_lines : Kind.t RequestLogLine }.

Definition empty_datastore : Datastore :=
  {| logged_services := Kind.empty; request_log_lines := Kind.empty |}.

Definition set_logged_services (f : Kind.t LoggedService -> Kind.t LoggedService)
  (ds : Datastore) : Datastore :=
  {| logged_services := f (logged_services ds);
     request_log_lines := request_log_lines ds |}.

Definition set_request_log_lines
  (f : Kind.t RequestLogLine -> Kind.t RequestLogLine) (ds : Datastore)
  : Datastore :=
  {| logged_services := logged_services ds;
     request_log_lines := f (request_log_lines ds) |}.

(** ** The upload payload *)

(** A JSON number as [json.loads] returns it: an [int], a finite [float]
    (every finite float is a rational), or a non-finite float. *)
Inductive JNumber : Type :=
| JInt (z : Z)
| JFloat (q : Q)
| JInfinity
| JNaN.

Record LogLineDict : Type :=
  { ld_timestamp : JNumber; ld_message : string; ld_level : Z }.

Record UploadData : Type :=
  { data_service_name : string;
    data_host : string;
    data_logs : list LogLineDict }.

(** [int(x)]: the identity on integers, truncation toward zero on floats. *)
Definition python_int (x : JNumber) : Exn + Z :=
  match x with
  | JInt z => inr z
  | JFloat q => inr (Z.quot (Qnum q) (Z.pos (Qden q)))
  | JInfinity => inl OverflowError
  | JNaN => inl ValueError
  end.

(** First and last second of the years 1 to 9999. *)
Definition DATETIME_MIN : Z := -62135596800.
Definition DATETIME_MAX : Z := 253402300799.

(** [datetime.datetime.fromtimestamp(t)]: raises outside the years of
    [datetime]. *)
Definition fromtimestamp (t : Z) : Exn + datetime :=
  if (DATETIME_MIN <=? t) && (t <=? DATETIME_MAX) then inr t else inl ValueError.

Definition lift {St A} (r : Exn + A) : Handler St A :=
  match r with
  | inl e => raise e
  | inr a => ret a
  end.

(** ** [LogUploadPage.post] *)

Local Open Scope handler_scope.

(** [host in service.hosts] *)
Definition host_in (h : string) (hs : list string) : bool :=
  existsb (String.eqb h) hs.

(** Lines 770-779: register the host of the upload with its service. *)
Definition register_host (service hostname : string) : Handler Datastore unit :=
  found <- gets (fun ds => Kind.get_by_id service (logged_services ds)) ;;
  match found with
  | None =>
      modify (set_logged_services (Kind.put service {| hosts := [hostname] |}))
  | Some svc =>
      if host_in hostname (hosts svc) then ret tt
      else modify (set_logged_services
                     (Kind.put service
                        {| hosts := (hosts svc ++ [hostname])%list |}))
  end.

(** Lines 783-797: the body of the loop over [log_lines]. *)
Definition add_log_line (service hostname : string)
  (log_line_dict : LogLineDict) : Handler Datastore unit :=
  the_time <- lift (python_int (ld_timestamp log_line_dict)) ;;
  let key_name := key_name service hostname the_time in
  found <- gets (fun ds => Kind.get_by_id key_name (request_log_lines ds)) ;;
  let log_line :=
    match found with
    | Some l => l
    | None =>
        {| service_name := service; host := hostname; app_logs := [] |}
    end in
  stamp <- lift (fromtimestamp the_time) ;;
  let app_log_line :=
    {| message := ld_message log_line_dict;
       level := ld_level log_line_dict;
       timestamp := stamp |} in
  modify (set_request_log_lines
            (Kind.put key_name
               {| service_name := service_name log_line;
                  host := host log_line;
                  app_logs := (app_logs log_line ++ [app_log_line])%list |})).

Definition LogUploadPage_post (data : UploadData) : Handler Datastore unit :=
  register_host (data_service_name data) (data_host data) ;;
  for_each (data_logs data)
    (add_log_line (data_service_name data) (data_host data)).

(** [ListHosts(service)]: the hosts registered for a service. *)
Definition list_hosts (service : string) (ds : Datastore) : list string :=
  match Kind.get_by_id service (logged_services ds) with
  | Some svc => hosts svc
  | None => []
  end.

(** The state a handler leaves. *)
Definition exec {St A} (m : Handler St A) (st : St) : St := snd (m st).

(** ** [LogServiceHostPage.get]: the paginated viewer *)

(** A query cursor: the key name of the last entity already returned. *)
Record Cursor : Type := { position : string }.

(** The web-safe serialisation of cursors, [Cursor.urlsafe()] and
    [Cursor(urlsafe=...)].  A serialised cursor decodes to itself and is
    neither the empty string nor the text the template prints for [None]. *)
Class CursorCodec : Type :=
  { urlsafe : Cursor -> string;
    from_urlsafe : string -> option Cursor;
    from_urlsafe_urlsafe : forall c, from_urlsafe (urlsafe c) = Some c;
    urlsafe_nonempty : forall c, urlsafe c <> "";
    urlsafe_not_None : forall c, urlsafe c <> "None" }.

(** [RequestLogLine.query(RequestLogLine.service_name == service_name)],
    and with [RequestLogLine.host == host]: the matching entities in key
    order. *)
Definition query_service (service : string) (k : Kind.t RequestLogLine)
  : Kind.t RequestLogLine :=
  filter (fun e => String.eqb (service_name (snd e)) service) k.

Definition query_service_host (service hostname : string)
  (k : Kind.t RequestLogLine) : Kind.t RequestLogLine :=
  filter (fun e => String.eqb (service_name (snd e)) service
                   && String.eqb (host (snd e)) hostname) k.

(** The results strictly after the position of a cursor. *)
Definition after_cursor (start_cursor : option Cursor)
  (results : Kind.t RequestLogLine) : Kind.t RequestLogLine :=
  match start_cursor with
  | None => results
  | Some c => filter (fun e => String.ltb (position c) (fst e)) results
  end.

(** Modelled from the spec: [Query.fetch_page] is the Datastore library's,
    not under src/.  Section 4.2: up to [page_size] records in ascending
    record-key order, starting strictly after the position of the cursor;
    the next cursor is absent when there are no further pages; the last
    component tells whether further results exist. *)
Definition fetch_page (page_size : nat) (start_cursor : option Cursor)
  (results : Kind.t RequestLogLine)
  : list RequestLogLine * option Cursor * bool :=
  let rest := after_cursor start_cursor results in
  let page := firstn page_size rest in
  let more := (page_size <? List.length rest)%nat in
  let next_cursor :=
    if more
    then match rev page with
         | e :: _ => Some {| position := fst e |}
         | [] => None
         end
    else None in
  (map snd page, next_cursor, more).

(** The number of logs we should present on each page. *)
Definition LOGS_PER_PAGE : nat := 20.

(** The values handed to the viewer template. *)
Record ViewerPage : Type :=
  { redirected : bool;
    page_service_name : string;
    page_host : string;
    query : list RequestLogLine;
    next_cursor : option string;
    is_more : bool }.

(** [x in xs] on strings. *)
Definition str_in (x : string) (xs : list string) : bool :=
  existsb (String.eqb x) xs.

(** Lines 717-755.  [self.redirect] only sets the response; the handler goes
    on to query and render. *)
Definition LogServiceHostPage_get `{CursorCodec}
  (is_cloud_admin : bool) (apps_user_is_admin_on : list string)
  (service hostname : string) (encoded_cursor : string)
  : Handler Datastore ViewerPage :=
  let redirect :=
    negb is_cloud_admin && negb (str_in service apps_user_is_admin_on) in
  start_cursor <-
    (if negb (String.eqb encoded_cursor "")
        && negb (String.eqb encoded_cursor "None")
     then match from_urlsafe encoded_cursor with
          | Some c => ret (Some c)
          | None => raise BadValueError
          end
     else ret None) ;;
  logs <- gets request_log_lines ;;
  let '(results, next, more) :=
    if String.eqb hostname "all"
    then fetch_page LOGS_PER_PAGE start_cursor (query_service service logs)
    else fetch_page LOGS_PER_PAGE start_cursor
           (query_service_host service hostname logs) in
  let cursor_value := option_map urlsafe next in
  ret {| redirected := redirect;
         page_service_name := service;
         page_host := hostname;
         query := results;
         next_cursor := cursor_value;
         is_more := more |}.

(** The [next_cursor] request parameter a viewer sends back: the value of the
    page, where the template prints [None] as the text [None]. *)
Definition cursor_param (cursor_value : option string) : string :=
  match cursor_value with
  | Some s => s
  | None => "None"
  end.

(** The records the filter of a request selects, in key order. *)
Definition matching (service hostname : string) (ds : Datastore)
  : Kind.t RequestLogLine :=
  if String.eqb hostname "all"
  then query_service service (request_log_lines ds)
  else query_service_host service hostname (request_log_lines ds).

(** A viewer following the pages: request with [param], collect the page, and
    while [is_more] holds request again with the returned cursor.  [None]
    when the handler raises or the steps run out. *)
Fixpoint paginate `{CursorCodec} (steps : nat)
  (is_cloud_admin : bool) (apps_user_is_admin_on : list string)
  (service hostname : string) (param : string) (ds : Datastore)
  : option (list (list RequestLogLine)) :=
  match steps with
  | O => None
  | S n =>
      match LogServiceHostPage_get is_cloud_admin apps_user_is_admin_on
              service hostname param ds with
      | (inl _, _) => None
      | (inr page, _) =>
          if is_more page
          then option_map (cons (query page))
                 (paginate n is_cloud_admin apps_user_is_admin_on
                    service hostname (cursor_param (next_cursor page)) ds)
          else Some [query page]
      end
  end.

(** A codec for the examples: the position behind a one-letter tag. *)
#[export, refine] Instance tagged_codec : CursorCodec :=
  {| urlsafe := fun c => String "c" (position c);
     from_urlsafe := fun s =>
       match s with
       | String "c" k => Some {| position := k |}
       | _ => None
       end |}.
Proof.
  - intros [k]; reflexivity.
  - intros c; discriminate.
  - intros c; discriminate.
Defined.

(** ** Refresh tasks ([AppUploadPage.post], [AppDeletePage.post]) *)

Record Task : Type := { url : string; countdown : Z }.

(** What the pages act on besides the Datastore: the task queue and the
    exceptions written to the log. *)
Record Server : Type := { taskqueue : list Task; logged : list Exn }.

Definition empty_server : Server := {| taskqueue := []; logged := [] |}.

(** The frequency, in seconds, of the cache refresh tasks. *)
Definition REFRESH_WAIT_TIME : Z := 10.

Record UploadValues : Type :=
  { error_message : string; success_message : string }.

Record DeleteValues : Type := { flash_message : string }.

(** Truth value of a Python string. *)
Definition truthy (s : string) : bool := negb (String.eqb s "").

Section TaskQueue.
(** Whether the queue service refuses a task, given the tasks it holds. *)
Variable refuses : Task -> list Task -> bool.

(** [taskqueue.add(url=..., countdown=...)]; the countdown defaults to 0. *)
Definition taskqueue_add (u : string) (c : Z) : Handler Server unit :=
  fun sv =>
    let task := {| url := u; countdown := c |} in
    if refuses task (taskqueue sv)
    then (inl TransientError, sv)
    else (inr tt, {| taskqueue := (taskqueue sv ++ [task])%list;
                     logged := logged sv |}).

(** [logging.exception(err)] *)
Definition logging_exception (err : Exn) : Handler Server unit :=
  modify (fun sv => {| taskqueue := taskqueue sv;
                       logged := (logged sv ++ [err])%list |}).

(** The two refresh tasks of lines 507-511 and 558-562. *)
Definition enqueue_refresh : Handler Server unit :=
  try_except
    (taskqueue_add "/status/refresh" 0 ;;
     taskqueue_add "/status/refresh" REFRESH_WAIT_TIME)
    logging_exception.

(** Lines 487-517.  [has_file]: the request carries [app_file_data];
    [upload_app]: what [helper.upload_app] returns or raises. *)
Definition AppUploadPage_post (has_file can_upload_apps : bool)
  (upload_app : Exn + string) : Handler Server UploadValues :=
  if negb has_file
  then ret {| error_message := "You must specify a file to upload.";
              success_message := "" |}
  else if can_upload_apps
  then
    msgs <- match upload_app with
            | inr success_msg => ret (success_msg, "")
            | inl (AppHelperException err) => ret ("", err)
            | inl e => raise e
            end ;;
    (if truthy (fst msgs) then enqueue_refresh else ret tt) ;;
    ret {| error_message := snd msgs; success_message := fst msgs |}
  else ret {| error_message := "You are not authorized to upload apps.";
              success_message := "" |}.

(** Lines 551-569.  [delete_app]: what [helper.delete_app] returns or
    raises. *)
Definition AppDeletePage_post (appname : string)
  (is_user_cloud_admin : bool) (owned_apps : list string)
  (delete_app : Exn + string) : Handler Server DeleteValues :=
  if is_user_cloud_admin || str_in appname owned_apps
  then
    msg <- lift delete_app ;;
    enqueue_refresh ;;
    ret {| flash_message := msg |}
  else
    ret {| flash_message :=
             "You do not have permission to delete the application: "
             ++ appname |}.
End TaskQueue.

(** A queue service that accepts every task. *)
Definition accepts_all : Task -> list Task -> bool := fun _ _ => false.

(** ** [StatusRefreshPage] and the delivery of refresh tasks *)

(** The cache the refresh handler rewrites, with the number of
    [dstore.update_all()] runs made so far. *)
Record Dashboard : Type := { refresh_cycles : nat }.

Definition update_all : Handler Dashboard unit :=
  modify (fun d => {| refresh_cycles := S (refresh_cycles d) |}).

(** Lines 205-210 (and 197-202: [get] is the same). *)
Definition StatusRefreshPage_post : Handler Dashboard string :=
  update_all ;; ret "datastore updated".

Definition StatusRefreshPage_get : Handler Dashboard string :=
  update_all ;; ret "datastore updated".

(** What happens around the handler: a trigger is enqueued, the queue
    dispatches a pending trigger to the handler, a running handler
    completes. *)
Inductive Event : Type := Trigger | Dispatch | Complete.

Record Scheduler : Type :=
  { pending : nat; in_flight : nat; dashboard : Dashboard }.

Definition idle : Scheduler :=
  {| pending := 0; in_flight := 0; dashboard := {| refresh_cycles := 0 |} |}.

Definition step (ev : Event) (s : Scheduler) : option Scheduler :=
  match ev with
  | Trigger =>
      Some {| pending := S (pending s); in_flight := in_flight s;
              dashboard := dashboard s |}
  | Dispatch =>
      match pending s with
      | O => None
      | S p => Some {| pending := p; in_flight := S (in_flight s);
                       dashboard := dashboard s |}
      end
  | Complete =>
      match in_flight s with
      | O => None
      | S r => Some {| pending := pending s; in_flight := r;
                       dashboard := exec StatusRefreshPage_post (dashboard s) |}
      end
  end.

Fixpoint run (evs : list Event) (s : Scheduler) : option Scheduler :=
  match evs with
  | [] => Some s
  | ev :: rest =>
      match step ev s with
      | Some s' => run rest s'
      | None => None
      end
  end.

Definition quiescent (s : Scheduler) : Prop := pending s = O /\ in_flight s = O.

Definition triggers (evs : list Event) : nat :=
  List.length (filter (fun ev => match ev with Trigger => true | _ => false end) evs).

(** One cycle is started, [n] more triggers arrive while it runs, it
    completes, and the queue then delivers what is pending. *)
Definition mid_cycle_trace (n : nat) : list Event :=
  ([Trigger; Dispatch] ++ repeat Trigger n ++ [Complete]
   ++ List.concat (repeat [Dispatch; Complete] n))%list.

(** The cycles run after the first one. *)
Definition follow_up_cycles (n : nat) : option nat :=
  option_map (fun s => (refresh_cycles (dashboard s) - 1)%nat)
    (run (mid_cycle_trace n) idle).

(** ** Reading the stored logs *)

(** The log lines stored under a record key; none when there is no record. *)
Definition stored_logs (key : string) (ds : Datastore) : list AppLogLine :=
  match Kind.get_by_id key (request_log_lines ds) with
  | Some r => app_logs r
  | None => []
  end.

(** An upload of one log line. *)
Definition one_line_upload (service hostname : string) (stamp : JNumber)
  (msg : string) (lvl : Z) : UploadData :=
  {| data_service_name := service;
     data_host := hostname;
     data_logs :=
       [{| ld_timestamp := stamp; ld_message := msg; ld_level := lvl |}] |}.

(** The result a handler returns. *)
Definition result {St A} (m : Handler St A) (st : St) : Exn + A := fst (m st).

(** ** Uncaught exceptions *)

(** The status of the response: an exception that leaves a handler goes to
    [handle_500] (lines 833-837); [self.redirect('/', self.response)] passes
    the response as the argument [permanent], so the redirect is a 301. *)
Definition viewer_status (r : Exn + ViewerPage) : Z :=
  match r with
  | inl _ => 500
  | inr page => if redirected page then 301 else 200
  end.

(** The two refresh tasks a mutation enqueues. *)
Definition refresh_now : Task := {| url := "/status/refresh"; countdown := 0 |}.

Definition refresh_later : Task :=
  {| url := "/status/refresh"; countdown := REFRESH_WAIT_TIME |}.

(** ** Orders on records *)

(** Entities in ascending key order. *)
Definition key_lt (e1 e2 : string * RequestLogLine) : Prop :=
  String.ltb (fst e1) (fst e2) = true.




(** The Datastore after a sequence of uploads, from the empty one. *)
Definition uploaded (us : list UploadData) : Datastore :=
  fold_left (fun ds u => exec (LogUploadPage_post u) ds) us empty_datastore.


(** The request parameter that stands for a start cursor. *)
Definition param_of `{CursorCodec} (start_cursor : option Cursor) : string :=
  match start_cursor with
  | None => ""
  | Some c => urlsafe c
  end.

(** ** Example uploads *)

(** Two log lines of service "s1" on host "h1". *)
Definition two_uploads : list UploadData :=
  [one_line_upload "s1" "h1" (JInt 1000) "boot" 1;
   one_line_upload "s1" "h1" (JInt 2000) "ready" 1].

(** An older line on host "a" and a newer one on host "b". *)
Definition two_hosts : list UploadData :=
  [one_line_upload "s" "a" (JInt 1000) "old" 1;
   one_line_upload "s" "b" (JInt 2000) "new" 1].

(** ** [LogMainPage.get] and [LogServicePage.get] *)

(** Lines 661-665: the key names of the [LoggedService] entities, each
    appended unless it is already in the list. *)
Definition all_services (k : Kind.t LoggedService) : list string :=
  fold_left
    (fun acc entity =>
       if str_in (fst entity) acc then acc else (acc ++ [fst entity])%list)
    k [].

(** Lines 667-670: the services the caller may see. *)
Definition permitted_services (is_cloud_admin : bool)
  (apps_user_is_admin_on all : list string) : list string :=
  filter (fun service => is_cloud_admin || str_in service apps_user_is_admin_on)
    all.

Record MainPage : Type :=
  { main_redirected : bool; main_services : list string }.

(** Truth value of a Python list. *)
Definition nonempty {A} (l : list A) : bool :=
  match l with
  | [] => false
  | _ :: _ => true
  end.

(** Lines 654-674. *)
Definition LogMainPage_get (is_cloud_admin : bool)
  (apps_user_is_admin_on : list string) : Handler Datastore MainPage :=
  let redirect := negb is_cloud_admin && negb (nonempty apps_user_is_admin_on) in
  services <- gets (fun ds => all_services (logged_services ds)) ;;
  ret {| main_redirected := redirect;
         main_services :=
           permitted_services is_cloud_admin apps_user_is_admin_on services |}.

Record ServicePage : Type :=
  { service_redirected : bool;
    service_exists : bool;
    service_page_name : string;
    service_hosts : list string }.

(** Lines 684-703. *)
Definition LogServicePage_get (is_cloud_admin : bool)
  (apps_user_is_admin_on : list string) (service : string)
  : Handler Datastore ServicePage :=
  let redirect :=
    negb is_cloud_admin && negb (str_in service apps_user_is_admin_on) in
  found <- gets (fun ds => Kind.get_by_id service (logged_services ds)) ;;
  match found with
  | Some svc =>
      ret {| service_redirected := redirect; service_exists := true;
             service_page_name := service; service_hosts := hosts svc |}
  | None =>
      ret {| service_redirected := redirect; service_exists := false;
             service_page_name := service; service_hosts := [] |}
  end.

(** ** [AuthorizePage.post] *)

Record AuthorizeValues : Type :=
  { authorize_flash : string; lists_permissions : bool }.

Section Authorize.
Variable refuses : Task -> list Task -> bool.

(** Lines 449-464.  [update_message]: what [parse_update_user_permissions]
    returns. *)
Definition AuthorizePage_post (is_user_cloud_admin : bool)
  (update_message : string) : Handler Server AuthorizeValues :=
  if is_user_cloud_admin
  then
    try_except (taskqueue_add refuses "/status/refresh" 0)
      (logging_exception) ;;
    ret {| authorize_flash := update_message; lists_permissions := true |}
  else
    ret {| authorize_flash :=
             "Only the cloud administrator can change permissions.";
           lists_permissions := false |}.
End Authorize.

(** ** [NewUserPage]: the user creation form *)

(** [s.replace(old, new)] for a one-character [old]. *)
Fixpoint replace (old : ascii) (new : string) (s : string) : string :=
  match s with
  | EmptyString => EmptyString
  | String c rest =>
      if Ascii.eqb c old then (new ++ replace old new rest)%string
      else String c (replace old new rest)
  end.

(** [cgi.escape(s)]: the ampersand first, then the angle brackets. *)
Definition cgi_escape (s : string) : string :=
  replace ">" "&gt;" (replace "<" "&lt;" (replace "&" "&amp;" s)).

(** What [cgi.escape] writes for one character. *)
Definition escape_char (c : ascii) : string :=
  if Ascii.eqb c "&" then "&amp;"
  else if Ascii.eqb c "<" then "&lt;"
  else if Ascii.eqb c ">" then "&gt;"
  else String c EmptyString.

Definition code_in (lo hi : N) (c : ascii) : bool :=
  (lo <=? N_of_ascii c)%N && (N_of_ascii c <=? hi)%N.

(** [\w] without flags: [a-zA-Z0-9_]. *)
Definition is_word (c : ascii) : bool :=
  code_in 97 122 c || code_in 65 90 c || code_in 48 57 c || Ascii.eqb c "_".

(** [\s] without flags: space, tab, newline, return, form feed, vertical
    tab. *)
Definition is_space (c : ascii) : bool :=
  Ascii.eqb c " " || code_in 9 13 c.

(** [[^@\s]] *)
Definition not_at_space (c : ascii) : bool :=
  negb (Ascii.eqb c "@") && negb (is_space c).

(** The longest prefix of characters in a class, and what follows it. *)
Fixpoint span (p : ascii -> bool) (s : string) : string * string :=
  match s with
  | EmptyString => (EmptyString, EmptyString)
  | String c rest =>
      if p c
      then let (taken, left) := span p rest in (String c taken, left)
      else (EmptyString, s)
  end.

Definition newline : string := String (ascii_of_nat 10) EmptyString.

(** [re.match(USER_EMAIL_REGEX, s)] for the expression
    [^\w[^@\s]*@[^@\s]{2,}$]: a word character, a run of [[^@\s]], the at
    sign, a run of at least two [[^@\s]], and the end of the string, which
    [$] also finds before a final newline.  The classes exclude the at sign
    and the newline, so the runs are the longest ones. *)
Definition matches_user_email (s : string) : bool :=
  match s with
  | EmptyString => false
  | String c rest =>
      is_word c
      && match snd (span not_at_space rest) with
         | String "@" domain =>
             (2 <=? String.length (fst (span not_at_space domain)))%nat
             && (String.eqb (snd (span not_at_space domain)) ""
                 || String.eqb (snd (span not_at_space domain)) newline)
         | _ => false
         end
  end.

(** An int that indicates how many characters passwords must be. *)
Definition MIN_PASSWORD_LENGTH : nat := 6.

(** The fields of the form, as [self.request.get] returns them. *)
Record NewUserForm : Type :=
  { user_email : string;
    user_password : string;
    user_password_confirmation : string }.

(** The error dict: [None] for a field that passes. *)
Record ErrorMsgs : Type :=
  { email_error : option string;
    password_error : option string;
    password_confirmation_error : option string }.

(** Lines 258-288. *)
Definition parse_new_user_post (form : NewUserForm) : ErrorMsgs :=
  let email := cgi_escape (user_email form) in
  let password := cgi_escape (user_password form) in
  let password_confirmation := cgi_escape (user_password_confirmation form) in
  {| email_error :=
       if matches_user_email email then None
       else Some "Format must be foo@boo.goo.";
     password_error :=
       if (MIN_PASSWORD_LENGTH <=? String.length password)%nat then None
       else Some "Password must be at least 6 characters long.";
     password_confirmation_error :=
       if String.eqb password_confirmation password then None
       else Some "Passwords do not match." |}.

(** Truth value of an entry of the error dict. *)
Definition error_set (e : option string) : bool :=
  match e with
  | None => false
  | Some msg => truthy msg
  end.

(** Lines 291-305.  [create_new_user]: what the helper returns or raises for
    an email and a password. *)
Definition process_new_user_post
  (create_new_user : string -> string -> Exn + bool)
  (errors : ErrorMsgs) (form : NewUserForm) : Exn + bool :=
  if error_set (email_error errors) || error_set (password_error errors)
     || error_set (password_confirmation_error errors)
  then inr false
  else create_new_user (cgi_escape (user_email form))
         (cgi_escape (user_password form)).

Inductive NewUserResponse : Type :=
| RedirectHome
| RenderForm (user : NewUserForm) (error_message_content : ErrorMsgs).

(** Lines 308-327. *)
Definition NewUserPage_post
  (create_new_user : string -> string -> Exn + bool) (form : NewUserForm)
  : Exn + NewUserResponse :=
  let err_msgs := parse_new_user_post form in
  let users :=
    {| user_email := cgi_escape (user_email form);
       user_password := cgi_escape (user_password form);
       user_password_confirmation :=
         cgi_escape (user_password_confirmation form) |} in
  match process_new_user_post create_new_user err_msgs form with
  | inr true => inr RedirectHome
  | inr false => inr (RenderForm users err_msgs)
  | inl (AppHelperException err) =>
      inr (RenderForm users
             {| email_error := Some err;
                password_error := password_error err_msgs;
                password_confirmation_error :=
                  password_confirmation_error err_msgs |})
  | inl e => inl e
  end.

(** ** Predicates on uploads and strings *)

(** Whether the loop body raises on a log line: [int] fails or the time is
    outside [datetime]. *)
Definition line_raises (d : LogLineDict) : bool :=
  match python_int (ld_timestamp d) with
  | inl _ => true
  | inr t =>
      match fromtimestamp t with
      | inl _ => true
      | inr _ => false
      end
  end.

(** [ds'] holds every record of [ds], under the same key, with the same
    service and host and with its log lines as a prefix. *)
Definition grows_into (ds ds' : Datastore) : Prop :=
  forall key,
    (exists added,
        stored_logs key ds' = (stored_logs key ds ++ added)%list)
    /\ (forall r,
          Kind.get_by_id key (request_log_lines ds) = Some r ->
          exists r',
            Kind.get_by_id key (request_log_lines ds') = Some r'
            /\ service_name r' = service_name r /\ host r' = host r).

(** Every stored record names a host registered for its service. *)
Definition hosts_registered (ds : Datastore) : Prop :=
  forall k r, In (k, r) (request_log_lines ds) ->
    In (host r) (list_hosts (service_name r) ds).

(** All characters of a string are in a class. *)
Fixpoint all_chars (p : ascii -> bool) (s : string) : bool :=
  match s with
  | EmptyString => true
  | String c rest => p c && all_chars p rest
  end.

(** How often a character occurs in a string. *)
Fixpoint count_char (c : ascii) (s : string) : nat :=
  match s with
  | EmptyString => O
  | String c' rest =>
      ((if Ascii.eqb c' c then 1 else 0) + count_char c rest)%nat
  end.

(** The uploads of one service and host. *)
Definition upload_of (service hostname : string) (lines : list LogLineDict)
  : UploadData :=
  {| data_service_name := service; data_host := hostname; data_logs := lines |}.

(** ** [AuthorizePage.parse_update_user_permissions] *)

(** The parameters of a request, in the order they were sent. *)
Record Request : Type :=
  { GET : list (string * string); POST : list (string * string) }.

(** [self.request.get(name)]: the first value of that name, GET parameters
    before POST parameters, or the empty string. *)
Definition request_get (name : string) (req : Request) : string :=
  match find (fun kv => String.eqb (fst kv) name) (GET req ++ POST req)%list with
  | Some kv => snd kv
  | None => ""
  end.

(** The calls made to the helper. *)
Inductive PermCall : Type :=
| AddPermission (email perm : string)
| RemovePermission (email perm : string).

Section Permissions.
(** What [helper.add_user_permissions] and [helper.remove_user_permissions]
    return, given the calls made before. *)
Variables add_user_permissions remove_user_permissions
  : list PermCall -> string -> string -> bool.

(** Lines 433-445: one permission of one user. *)
Definition update_permission (req : Request) (email : string)
  (acc : string * list PermCall) (perm : string) : string * list PermCall :=
  let key := (email ++ "-" ++ perm)%string in
  let req_keys := map fst (POST req) in
  let current := request_get ("CURRENT-" ++ key) req in
  if str_in key req_keys && String.eqb current "False"
  then
    if add_user_permissions (snd acc) email perm
    then (fst acc ++ "Enabling " ++ perm ++ " for " ++ email ++ ". ",
          (snd acc ++ [AddPermission email perm])%list)
    else (fst acc ++ "Error enabling " ++ perm ++ " for " ++ email ++ ". ",
          (snd acc ++ [AddPermission email perm])%list)
  else if negb (str_in key req_keys) && String.eqb current "True"
  then
    if remove_user_permissions (snd acc) email perm
    then (fst acc ++ "Disabling " ++ perm ++ " for " ++ email ++ ". ",
          (snd acc ++ [RemovePermission email perm])%list)
    else (fst acc ++ "Error disabling " ++ perm ++ " for " ++ email ++ ". ",
          (snd acc ++ [RemovePermission email perm])%list)
  else acc.

(** Lines 421-446: the message for the user and the calls made.  [perms]:
    what [helper.get_all_permission_items] returns. *)
Definition parse_update_user_permissions (perms : list string) (req : Request)
  : string * list PermCall :=
  fold_left
    (fun acc field =>
       if String.prefix "user_permission_" (fst field)
       then fold_left (update_permission req (snd field)) perms acc
       else acc)
    (POST req) ("", []).
End Permissions.

(** A helper call the form asks for: a field of a user names the email, the
    permission is one of the items, and the form differs from the current
    state. *)
Definition call_asked_for (perms : list string) (req : Request)
  (call : PermCall) : Prop :=
  match call with
  | AddPermission email perm =>
      In perm perms
      /\ (exists field, In (field, email) (POST req)
                        /\ String.prefix "user_permission_" field = true)
      /\ In (email ++ "-" ++ perm)%string (map fst (POST req))
      /\ request_get ("CURRENT-" ++ email ++ "-" ++ perm) req = "False"
  | RemovePermission email perm =>
      In perm perms
      /\ (exists field, In (field, email) (POST req)
                        /\ String.prefix "user_permission_" field = true)
      /\ ~ In (email ++ "-" ++ perm)%string (map fst (POST req))
      /\ request_get ("CURRENT-" ++ email ++ "-" ++ perm) req = "True"
  end.

(** A form that checks the permission upload_app of one user, which was
    off, and the same form for a permission that was already on. *)
Definition enabling_form : Request :=
  {| GET := [];
     POST := [("user_permission_1", "a@b.c"); ("a@b.c-upload_app", "on");
              ("CURRENT-a@b.c-upload_app", "False")] |}.

Definition unchanged_form : Request :=
  {| GET := [];
     POST := [("user_permission_1", "a@b.c"); ("a@b.c-upload_app", "on");
              ("CURRENT-a@b.c-upload_app", "True")] |}.

(** ** What the Datastore stores *)

(** A key name ndb takes: not empty and at most 500 bytes. *)
Definition storable_name (s : string) : Prop :=
  (1 <= String.length s <= 500)%nat.

(** An indexed [StringProperty] value: at most 500 bytes. *)
Definition storable_string (s : string) : Prop :=
  (String.length s <= 500)%nat.

(** An [IntegerProperty] value: a signed 64-bit integer. *)
Definition int64 (z : Z) : Prop := - 2 ^ 63 <= z < 2 ^ 63.

(** A service and host the registry can hold. *)
Definition storable_host (service hostname : string) : Prop :=
  storable_name service /\ storable_string hostname.

(** A log line of a service and host, at second [t] with level [lvl], that
    the Datastore can hold: the service name and the record key are key
    names, the host is an indexed string and the level an integer
    property. *)
Definition storable_line (service hostname : string) (t lvl : Z) : Prop :=
  storable_host service hostname
  /\ storable_name (key_name service hostname t)
  /\ int64 lvl.

(** The timestamp lies in the whole second [t], counted toward zero:
    [t <= x < t + 1] for a second after the epoch, [t - 1 < x <= t] for one
    before it, and [-1 < x < 1] for second 0; an integer lies in its own
    second. *)
Definition in_whole_second (x : JNumber) (t : Z) : Prop :=
  match x with
  | JInt z => z = t
  | JFloat q =>
      match t with
      | Z0 => - Z.pos (Qden q) < Qnum q < Z.pos (Qden q)
      | Zpos _ => t * Z.pos (Qden q) <= Qnum q < (t + 1) * Z.pos (Qden q)
      | Zneg _ => (t - 1) * Z.pos (Qden q) < Qnum q <= t * Z.pos (Qden q)
      end
  | JInfinity => False
  | JNaN => False
  end.

(** * Properties *)

(** Discharges [storable_host], [storable_line] and the like on concrete
    names and levels. *)
Ltac storable :=
  unfold storable_line, storable_host, storable_name, storable_string, int64;
  repeat split; first [lia | vm_compute; lia].

(** ** Decimal strings and their order *)

Module PyIntFacts.
Import PyInt.

Lemma digit_char_code (d : Z) :
  0 <= d < 10 -> N_of_ascii (digit_char d) = Z.to_N (48 + d).
Proof.
  intros Hd. unfold digit_char, ascii_of_nat.
  rewrite N_ascii_embedding by lia. lia.
Qed.

Lemma digit_char_compare (x y : Z) :
  0 <= x < 10 -> 0 <= y < 10 ->
  Ascii.compare (digit_char x) (digit_char y) = Z.compare x y.
Proof.
  intros Hx Hy. unfold Ascii.compare.
  rewrite !digit_char_code by assumption.
  destruct (Z.compare_spec x y) as [E | L | G].
  - subst. apply N.compare_refl.
  - apply N.compare_lt_iff. lia.
  - apply N.compare_gt_iff. lia.
Qed.

Lemma string_compare_cons (x y : ascii) (a b : string) :
  String.compare (String x a) (String y b) =
  match Ascii.compare x y with
  | Eq => String.compare a b
  | c => c
  end.
Proof. reflexivity. Qed.

Lemma fixed_digits_length (k : nat) : forall n acc,
  String.length (fixed_digits k n acc) = (k + String.length acc)%nat.
Proof.
  induction k as [| k IH]; intros n acc; simpl.
  - reflexivity.
  - rewrite IH. simpl. lia.
Qed.

(** Comparing two [k]-digit numerals is comparing the numbers, then the
    text behind them. *)
Lemma fixed_digits_compare (k : nat) : forall a b acca accb,
  0 <= a < 10 ^ Z.of_nat k -> 0 <= b < 10 ^ Z.of_nat k ->
  String.compare (fixed_digits k a acca) (fixed_digits k b accb) =
  match a ?= b with
  | Eq => String.compare acca accb
  | c => c
  end.
Proof.
  induction k as [| k IH]; intros a b acca accb Ha Hb.
  - simpl in *. assert (a = 0) by lia. assert (b = 0) by lia. subst.
    reflexivity.
  - rewrite Nat2Z.inj_succ, Z.pow_succ_r in Ha, Hb by lia.
    simpl fixed_digits.
    rewrite IH by (split; [apply Z.div_pos; lia
                          | apply Z.div_lt_upper_bound; lia]).
    pose proof (Z.div_mod a 10 ltac:(lia)) as Da.
    pose proof (Z.div_mod b 10 ltac:(lia)) as Db.
    pose proof (Z.mod_pos_bound a 10 ltac:(lia)) as Ma.
    pose proof (Z.mod_pos_bound b 10 ltac:(lia)) as Mb.
    rewrite string_compare_cons, digit_char_compare by assumption.
    destruct (Z.compare_spec (a / 10) (b / 10)) as [E | L | G].
    + destruct (Z.compare_spec (a mod 10) (b mod 10)) as [E' | L' | G'].
      * assert (a = b) by lia. subst. now rewrite Z.compare_refl.
      * assert (a < b) by lia.
        now replace (a ?= b) with Lt by (symmetry; apply Z.compare_lt_iff; lia).
      * assert (b < a) by lia.
        now replace (a ?= b) with Gt by (symmetry; apply Z.compare_gt_iff; lia).
    + now replace (a ?= b) with Lt by (symmetry; apply Z.compare_lt_iff; lia).
    + now replace (a ?= b) with Gt by (symmetry; apply Z.compare_gt_iff; lia).
Qed.

(** With enough steps, [str_digits] writes the [k+1] digits of a number
    that has [k+1] digits. *)
Lemma str_digits_fixed (k : nat) : forall fuel n acc,
  10 ^ Z.of_nat k <= n < 10 ^ Z.of_nat (S k) -> (k < fuel)%nat ->
  str_digits fuel n acc = fixed_digits (S k) n acc.
Proof.
  induction k as [| k IH]; intros fuel n acc Hn Hf.
  - destruct fuel as [| f]; [lia |]. simpl in *.
    destruct (Z.ltb_spec n 10); [reflexivity | lia].
  - destruct fuel as [| f]; [lia |].
    rewrite !Nat2Z.inj_succ, !Z.pow_succ_r in Hn by lia.
    assert (0 < 10 ^ Z.of_nat k) by (apply Z.pow_pos_nonneg; lia).
    cbn [str_digits].
    destruct (Z.ltb_spec n 10); [lia |].
    rewrite IH; [reflexivity | | lia].
    rewrite Nat2Z.inj_succ, Z.pow_succ_r by lia.
    split; [apply Z.div_le_lower_bound; lia
           | apply Z.div_lt_upper_bound; lia].
Qed.

Lemma digits_fuel_enough (k : nat) (n : Z) :
  10 ^ Z.of_nat k <= n -> (k < digits_fuel n)%nat.
Proof.
  intros Hn. unfold digits_fuel.
  assert (Z.of_nat k <= Z.log2 n); [| lia].
  rewrite <- (Z.log2_pow2 (Z.of_nat k)) by lia.
  apply Z.log2_le_mono.
  transitivity (10 ^ Z.of_nat k); [| assumption].
  apply Z.pow_le_mono_l. lia.
Qed.

(** [str] of a number of [k+1] digits is its fixed-width numeral. *)
Lemma str_fixed (k : nat) (n : Z) :
  10 ^ Z.of_nat k <= n < 10 ^ Z.of_nat (S k) ->
  str n = fixed_digits (S k) n "".
Proof.
  intros Hn. unfold str.
  assert (0 < 10 ^ Z.of_nat k) by (apply Z.pow_pos_nonneg; lia).
  destruct (Z.ltb_spec n 0); [lia |].
  apply str_digits_fixed; [assumption | apply digits_fuel_enough; lia].
Qed.

End PyIntFacts.

(** ** The order of strings *)

Lemma string_compare_refl (s : string) : String.compare s s = Eq.
Proof.
  induction s as [| c s IH]; simpl; [reflexivity |].
  unfold Ascii.compare. now rewrite N.compare_refl.
Qed.

Lemma string_compare_eq (a b : string) : String.compare a b = Eq <-> a = b.
Proof.
  split; [apply String.compare_eq_iff | intros ->; apply string_compare_refl].
Qed.

Lemma string_compare_lt_trans (a : string) : forall b c,
  String.compare a b = Lt -> String.compare b c = Lt ->
  String.compare a c = Lt.
Proof.
  induction a as [| x a IH]; intros [| y b] [| z c]; simpl;
    try discriminate; try reflexivity.
  unfold Ascii.compare.
  destruct (N.compare_spec (N_of_ascii x) (N_of_ascii y)) as [E1 | L1 | G1];
    try discriminate;
    destruct (N.compare_spec (N_of_ascii y) (N_of_ascii z)) as [E2 | L2 | G2];
    try discriminate; intros H1 H2.
  - rewrite E1, E2, N.compare_refl. eauto.
  - rewrite E1. now apply N.compare_lt_iff in L2 as ->.
  - rewrite <- E2. now apply N.compare_lt_iff in L1 as ->.
  - assert (L : (N_of_ascii x < N_of_ascii z)%N) by lia.
    now apply N.compare_lt_iff in L as ->.
Qed.

Lemma string_ltb_trans (a b c : string) :
  String.ltb a b = true -> String.ltb b c = true -> String.ltb a c = true.
Proof.
  unfold String.ltb. intros H1 H2.
  destruct (String.compare a b) eqn:E1; try discriminate.
  destruct (String.compare b c) eqn:E2; try discriminate.
  now rewrite (string_compare_lt_trans a b c E1 E2).
Qed.

Lemma string_ltb_irrefl (a : string) : String.ltb a a = false.
Proof. unfold String.ltb. now rewrite string_compare_refl. Qed.

Lemma string_ltb_asym (a b : string) :
  String.ltb a b = true -> String.ltb b a = false.
Proof.
  unfold String.ltb. rewrite (String.compare_antisym b a).
  destruct (String.compare a b); simpl; congruence.
Qed.

Lemma string_ltb_neq (a b : string) : String.ltb a b = true -> a <> b.
Proof. intros H ->. rewrite string_ltb_irrefl in H. discriminate. Qed.

(** A common prefix does not change the order. *)
Lemma string_compare_app (p a b : string) :
  String.compare (p ++ a) (p ++ b) = String.compare a b.
Proof.
  induction p as [| c p IH]; simpl; [reflexivity |].
  unfold Ascii.compare. now rewrite N.compare_refl.
Qed.

(** ** C1: the order of encoded timestamps *)

Lemma full_width_reversed (t : Z) :
  full_width t -> 10 ^ 16 <= reversed_time t < 10 ^ 17.
Proof. unfold full_width, reversed_time. lia. Qed.

Lemma encode_fixed (t : Z) :
  full_width t -> encode t = PyInt.fixed_digits 17 (reversed_time t) "".
Proof.
  intros H. apply full_width_reversed in H.
  unfold encode. apply (PyIntFacts.str_fixed 16). exact H.
Qed.

Lemma encode_compare (t1 t2 : Z) :
  full_width t1 -> full_width t2 ->
  String.compare (encode t1) (encode t2) = Z.compare t2 t1.
Proof.
  intros H1 H2. rewrite !encode_fixed by assumption.
  apply full_width_reversed in H1, H2.
  rewrite PyIntFacts.fixed_digits_compare by (change (Z.of_nat 17) with 17; lia).
  change (String.compare "" "") with Eq. unfold reversed_time in *.
  destruct (Z.compare_spec t2 t1) as [E | L | G].
  - subst. now rewrite Z.compare_refl.
  - assert (C : (2 ^ 34 - t1) * 1000000 < (2 ^ 34 - t2) * 1000000) by lia.
    now apply Z.compare_lt_iff in C as ->.
  - assert (C : (2 ^ 34 - t2) * 1000000 < (2 ^ 34 - t1) * 1000000) by lia.
    now apply Z.compare_gt_iff in C as ->.
Qed.

Lemma encode_length (t : Z) :
  full_width t -> String.length (encode t) = KEY_WIDTH.
Proof.
  intros H. rewrite encode_fixed by assumption.
  now rewrite PyIntFacts.fixed_digits_length.
Qed.

(** C1, as amended: for timestamps t1 < t2 whose reversed time has the full
    eleven digits (2^34 - 10^11 < t <= 2^34 - 10^10, which covers every epoch
    second from 0 to 7179869184), the key fragment of t1 is greater than that
    of t2 in the order of strings and both have the fixed width 17. *)
Theorem encode_reverses_order (t1 t2 : Z) :
  full_width t1 -> full_width t2 -> t1 < t2 ->
  String.ltb (encode t2) (encode t1) = true
  /\ String.length (encode t1) = KEY_WIDTH
  /\ String.length (encode t2) = KEY_WIDTH.
Proof.
  intros H1 H2 Hlt. repeat split; try now apply encode_length.
  unfold String.ltb. rewrite encode_compare by assumption.
  now apply Z.compare_lt_iff in Hlt as ->.
Qed.

Lemma encode_reverses_order_witness :
  String.ltb (encode 2000) (encode 1000) = true
  /\ String.length (encode 1000) = KEY_WIDTH
  /\ String.length (encode 2000) = KEY_WIDTH.
Proof.
  apply (encode_reverses_order 1000 2000); unfold full_width; lia.
Defined.

(** C1, as stated, fails: the fragment is not zero-padded, so the
    representable timestamps 7179869184 and 7179869185 have fragments of 17
    and 16 characters, in ascending order. *)
Lemma encode_order_fails_unpadded :
  ~ (forall t1 t2 : Z,
        representable t1 -> representable t2 -> t1 < t2 ->
        String.ltb (encode t2) (encode t1) = true
        /\ String.length (encode t1) = String.length (encode t2)).
Proof.
  intros claim.
  assert (R1 : representable 7179869184).
  { split; [lia | vm_compute; lia]. }
  assert (R2 : representable 7179869185).
  { split; [lia | vm_compute; lia]. }
  destruct (claim 7179869184 7179869185 R1 R2 ltac:(lia)) as [Hord _].
  vm_compute in Hord. discriminate.
Qed.

(** ** Datastore kinds: what [get_by_id] reads after [put] *)

Module KindFacts.
Section KindFacts.
Context {V : Type}.
Implicit Types (k : Kind.t V) (id : string) (v : V).

Lemma get_by_id_put_same id v k :
  Kind.get_by_id id (Kind.put id v k) = Some v.
Proof.
  induction k as [| [id' v'] rest IH]; simpl.
  - now rewrite String.eqb_refl.
  - destruct (String.compare id id') eqn:C; simpl.
    + now rewrite String.eqb_refl.
    + now rewrite String.eqb_refl.
    + destruct (String.eqb_spec id id') as [-> | _]; [| exact IH].
      rewrite string_compare_refl in C. discriminate.
Qed.

Lemma get_by_id_put_other id id' v k :
  id <> id' ->
  Kind.get_by_id id' (Kind.put id v k) = Kind.get_by_id id' k.
Proof.
  intros Hne. induction k as [| [id0 v0] rest IH]; simpl.
  - destruct (String.eqb_spec id' id); congruence.
  - destruct (String.compare id id0) eqn:C; simpl.
    + apply string_compare_eq in C. subst id0.
      destruct (String.eqb_spec id' id); congruence.
    + destruct (String.eqb_spec id' id); congruence.
    + now rewrite IH.
Qed.

Lemma keys_put_in id v k x :
  In x (Kind.keys (Kind.put id v k)) -> x = id \/ In x (Kind.keys k).
Proof.
  induction k as [| [id' v'] rest IH]; simpl.
  - intros [<- | []]. now left.
  - destruct (String.compare id id') eqn:C; simpl.
    + intros [<- | H]; auto.
    + intros [<- | [<- | H]]; auto.
    + intros [<- | H]; auto. destruct (IH H); auto.
Qed.

Lemma put_well_formed id v k :
  Kind.well_formed k -> Kind.well_formed (Kind.put id v k).
Proof.
  unfold Kind.well_formed.
  induction k as [| [id' v'] rest IH]; simpl; intros Hs.
  - repeat constructor.
  - apply StronglySorted_inv in Hs as [Hrest Hall].
    destruct (String.compare id id') eqn:C; simpl.
    + apply string_compare_eq in C. subst id'. now constructor.
    + assert (L : String.ltb id id' = true) by (unfold String.ltb; now rewrite C).
      constructor; [now constructor |].
      constructor; [exact L |].
      eapply Forall_impl; [| exact Hall].
      intros b Hb. eapply string_ltb_trans; eassumption.
    + constructor; [now apply IH |].
      apply Forall_forall. intros x Hx.
      apply keys_put_in in Hx as [-> | Hx].
      * unfold String.ltb. rewrite String.compare_antisym, C. reflexivity.
      * rewrite Forall_forall in Hall. now apply Hall.
Qed.

Lemma filter_eqb_above id (l : list string) :
  Forall (fun b => String.ltb id b = true) l -> filter (String.eqb id) l = [].
Proof.
  induction 1 as [| b l Hb _ IH]; simpl; [reflexivity |].
  destruct (String.eqb_spec id b) as [-> | _]; [| exact IH].
  rewrite string_ltb_irrefl in Hb. discriminate.
Qed.

(** After [put], a well-formed kind holds exactly one entity of that key. *)
Lemma count_put id v k :
  Kind.well_formed k -> Kind.count id (Kind.put id v k) = 1%nat.
Proof.
  unfold Kind.well_formed, Kind.count.
  induction k as [| [id' v'] rest IH]; simpl; intros Hs.
  - now rewrite String.eqb_refl.
  - apply StronglySorted_inv in Hs as [Hrest Hall].
    destruct (String.compare id id') eqn:C; simpl.
    + apply string_compare_eq in C. subst id'.
      rewrite String.eqb_refl. simpl.
      now rewrite (filter_eqb_above id _ Hall).
    + assert (L : String.ltb id id' = true) by (unfold String.ltb; now rewrite C).
      rewrite String.eqb_refl.
      destruct (String.eqb_spec id id') as [-> | _].
      * rewrite string_ltb_irrefl in L. discriminate.
      * simpl. rewrite filter_eqb_above; [reflexivity |].
        eapply Forall_impl; [| exact Hall].
        intros b Hb. eapply string_ltb_trans; eassumption.
    + destruct (String.eqb_spec id id') as [-> | _].
      * rewrite string_compare_refl in C. discriminate.
      * now apply IH.
Qed.

Lemma well_formed_empty : Kind.well_formed (@Kind.empty V).
Proof. constructor. Qed.

Lemma well_formed_NoDup k : Kind.well_formed k -> NoDup (Kind.keys k).
Proof.
  unfold Kind.well_formed.
  induction 1 as [| a l _ IH Hall]; constructor; [| exact IH].
  intros Hin. rewrite Forall_forall in Hall.
  specialize (Hall a Hin). rewrite string_ltb_irrefl in Hall. discriminate.
Qed.
End KindFacts.
End KindFacts.

(** ** [LogUploadPage.post]: what an upload writes *)

Lemma fromtimestamp_in_range (t : Z) :
  DATETIME_MIN <= t <= DATETIME_MAX -> fromtimestamp t = inr t.
Proof.
  intros [Hlo Hhi]. unfold fromtimestamp.
  apply Z.leb_le in Hlo, Hhi. now rewrite Hlo, Hhi.
Qed.

Lemma register_host_returns (s h : string) (ds : Datastore) :
  result (register_host s h) ds = inr tt
  /\ request_log_lines (exec (register_host s h) ds) = request_log_lines ds.
Proof.
  unfold result, exec, register_host, bind, gets. simpl.
  destruct (Kind.get_by_id s (logged_services ds)) as [svc |]; simpl.
  - destruct (host_in h (hosts svc)); simpl; auto.
  - auto.
Qed.

(** The record a log line is appended to: the stored one, or a new one of
    the uploading service and host. *)
Lemma add_log_line_writes (s h : string) (d : LogLineDict) (t : Z)
  (ds : Datastore) :
  python_int (ld_timestamp d) = inr t ->
  DATETIME_MIN <= t <= DATETIME_MAX ->
  exists r,
    add_log_line s h d ds =
      (inr tt, set_request_log_lines (Kind.put (key_name s h t) r) ds)
    /\ app_logs r =
         (stored_logs (key_name s h t) ds
          ++ [{| message := ld_message d; level := ld_level d;
                 timestamp := t |}])%list
    /\ (Kind.get_by_id (key_name s h t) (request_log_lines ds) = None ->
        service_name r = s /\ host r = h)
    /\ (forall r0,
          Kind.get_by_id (key_name s h t) (request_log_lines ds) = Some r0 ->
          service_name r = service_name r0 /\ host r = host r0).
Proof.
  intros Hint Hrange. unfold add_log_line, bind, gets, stored_logs.
  rewrite Hint. simpl. rewrite (fromtimestamp_in_range t Hrange). simpl.
  eexists. split; [reflexivity |]. simpl.
  destruct (Kind.get_by_id (key_name s h t) (request_log_lines ds)) as [r0 |];
    simpl; repeat split; try congruence;
    try (intros r1 [= <-]; reflexivity).
Qed.

Lemma post_one_line (s h : string) (x : JNumber) (m : string) (l t : Z)
  (ds : Datastore) :
  python_int x = inr t ->
  DATETIME_MIN <= t <= DATETIME_MAX ->
  exists r,
    result (LogUploadPage_post (one_line_upload s h x m l)) ds = inr tt
    /\ request_log_lines (exec (LogUploadPage_post (one_line_upload s h x m l)) ds)
       = Kind.put (key_name s h t) r (request_log_lines ds)
    /\ app_logs r =
         (stored_logs (key_name s h t) ds
          ++ [{| message := m; level := l; timestamp := t |}])%list
    /\ (Kind.get_by_id (key_name s h t) (request_log_lines ds) = None ->
        service_name r = s /\ host r = h)
    /\ (forall r0,
          Kind.get_by_id (key_name s h t) (request_log_lines ds) = Some r0 ->
          service_name r = service_name r0 /\ host r = host r0).
Proof.
  intros Hint Hrange.
  destruct (register_host_returns s h ds) as [Hres Hlogs].
  unfold result, exec in *.
  unfold LogUploadPage_post, one_line_upload, bind; simpl.
  destruct (register_host s h ds) as [res ds'] eqn:R. simpl in Hres, Hlogs.
  subst res.
  destruct (add_log_line_writes s h
              {| ld_timestamp := x; ld_message := m; ld_level := l |} t ds'
              Hint Hrange) as (r & Hrun & Happ & Hnew & Hold).
  exists r. unfold bind at 1 2. rewrite Hrun. simpl in *.
  unfold stored_logs in *. rewrite Hlogs in *. auto.
Qed.

(** Two uploads whose lines get the same record key write one record that
    holds both lines, the second behind the first. *)
Lemma post_two_same_key (s1 h1 s2 h2 : string) (x1 x2 : JNumber)
  (m1 m2 : string) (l1 l2 t1 t2 : Z) (ds : Datastore) :
  Kind.well_formed (request_log_lines ds) ->
  python_int x1 = inr t1 -> python_int x2 = inr t2 ->
  DATETIME_MIN <= t1 <= DATETIME_MAX ->
  DATETIME_MIN <= t2 <= DATETIME_MAX ->
  key_name s1 h1 t1 = key_name s2 h2 t2 ->
  let key := key_name s1 h1 t1 in
  let ds1 := exec (LogUploadPage_post (one_line_upload s1 h1 x1 m1 l1)) ds in
  let ds2 := exec (LogUploadPage_post (one_line_upload s2 h2 x2 m2 l2)) ds1 in
  result (LogUploadPage_post (one_line_upload s1 h1 x1 m1 l1)) ds = inr tt
  /\ result (LogUploadPage_post (one_line_upload s2 h2 x2 m2 l2)) ds1 = inr tt
  /\ Kind.count key (request_log_lines ds2) = 1%nat
  /\ stored_logs key ds2 =
       (stored_logs key ds
        ++ [{| message := m1; level := l1; timestamp := t1 |};
            {| message := m2; level := l2; timestamp := t2 |}])%list
  /\ (Kind.get_by_id key (request_log_lines ds) = None ->
      exists r, Kind.get_by_id key (request_log_lines ds2) = Some r
                /\ service_name r = s1 /\ host r = h1).
Proof.
  intros Hwf Hi1 Hi2 Hr1 Hr2 Hkey key ds1 ds2.
  destruct (post_one_line s1 h1 x1 m1 l1 t1 ds Hi1 Hr1)
    as (r1 & Hres1 & Hlogs1 & Happ1 & Hnew1 & _).
  destruct (post_one_line s2 h2 x2 m2 l2 t2 ds1 Hi2 Hr2)
    as (r2 & Hres2 & Hlogs2 & Happ2 & _ & Hold2).
  fold ds1 in Hlogs1. fold ds2 in Hlogs2.
  rewrite <- Hkey in Hlogs2, Happ2, Hold2.
  fold key in Hlogs1, Hlogs2, Happ1, Happ2, Hnew1, Hold2.
  assert (Hst1 : stored_logs key ds1 = app_logs r1).
  { unfold stored_logs. now rewrite Hlogs1, KindFacts.get_by_id_put_same. }
  repeat split; try assumption.
  - rewrite Hlogs2. apply KindFacts.count_put.
    rewrite Hlogs1. now apply KindFacts.put_well_formed.
  - unfold stored_logs at 1.
    rewrite Hlogs2, KindFacts.get_by_id_put_same.
    rewrite Happ2, Hst1, Happ1, <- app_assoc. reflexivity.
  - intros Hnone. exists r2.
    rewrite Hlogs2, KindFacts.get_by_id_put_same. split; [reflexivity |].
    destruct (Hold2 r1) as [Hs Hh].
    { now rewrite Hlogs1, KindFacts.get_by_id_put_same. }
    destruct (Hnew1 Hnone) as [Hs1 Hh1]. split; congruence.
Qed.

(** Uploads keep the kinds well formed and the loop leaves the registry
    alone. *)
Lemma add_log_line_invariant (s h : string) (d : LogLineDict) (ds : Datastore) :
  logged_services (exec (add_log_line s h d) ds) = logged_services ds
  /\ (Kind.well_formed (request_log_lines ds) ->
      Kind.well_formed (request_log_lines (exec (add_log_line s h d) ds))).
Proof.
  unfold exec, add_log_line, bind, gets, lift.
  destruct (python_int (ld_timestamp d)) as [e | t]; simpl; [auto |].
  destruct (fromtimestamp t) as [e | stamp]; simpl; [auto |].
  split; [reflexivity |]. apply KindFacts.put_well_formed.
Qed.

Lemma for_each_add_log_line_invariant (s h : string) (ls : list LogLineDict) :
  forall ds,
    logged_services (exec (for_each ls (add_log_line s h)) ds)
    = logged_services ds
    /\ (Kind.well_formed (request_log_lines ds) ->
        Kind.well_formed
          (request_log_lines (exec (for_each ls (add_log_line s h)) ds))).
Proof.
  induction ls as [| d ls IH]; intros ds; simpl.
  - unfold exec; simpl; auto.
  - destruct (add_log_line_invariant s h d ds) as [Hsv Hwf].
    unfold exec, bind in *.
    destruct (add_log_line s h d ds) as [[e | []] ds'];
      simpl in *; [auto |].
    destruct (IH ds') as [Hsv' Hwf']. split; [congruence | auto].
Qed.


Lemma post_registry (data : UploadData) (ds : Datastore) :
  logged_services (exec (LogUploadPage_post data) ds)
  = logged_services
      (exec (register_host (data_service_name data) (data_host data)) ds).
Proof.
  unfold LogUploadPage_post.
  destruct (register_host_returns (data_service_name data) (data_host data) ds)
    as [Hres _].
  unfold result, exec, bind in *.
  destruct (register_host (data_service_name data) (data_host data) ds)
    as [res ds'].
  simpl in *. subst res.
  apply for_each_add_log_line_invariant.
Qed.

(** ** C2: re-uploading the same (service, host, timestamp) *)

(** C2: uploading a log line for (service, host, timestamp) and then another
    one for the same triple leaves exactly one record under that key, and
    the record's log lines are the ones it had followed by the two uploaded
    lines in upload order.  The Datastore holds one entity per key, the
    timestamp is one [datetime] can represent, and the lines are ones the
    Datastore can hold (service name and record key are key names of at most
    500 bytes, the host is at most 500 bytes, the levels are 64-bit
    integers): outside these the upload raises. *)
Theorem reupload_appends_to_one_record (ds : Datastore) (s h : string) (t : Z)
  (m1 m2 : string) (l1 l2 : Z) :
  Kind.well_formed (request_log_lines ds) ->
  DATETIME_MIN <= t <= DATETIME_MAX ->
  storable_line s h t l1 -> storable_line s h t l2 ->
  let key := key_name s h t in
  let ds1 := exec (LogUploadPage_post (one_line_upload s h (JInt t) m1 l1)) ds in
  let ds2 := exec (LogUploadPage_post (one_line_upload s h (JInt t) m2 l2)) ds1 in
  result (LogUploadPage_post (one_line_upload s h (JInt t) m1 l1)) ds = inr tt
  /\ result (LogUploadPage_post (one_line_upload s h (JInt t) m2 l2)) ds1 = inr tt
  /\ Kind.count key (request_log_lines ds2) = 1%nat
  /\ stored_logs key ds2 =
       (stored_logs key ds
        ++ [{| message := m1; level := l1; timestamp := t |};
            {| message := m2; level := l2; timestamp := t |}])%list.
Proof.
  intros Hwf Hr _ _ key ds1 ds2.
  destruct (post_two_same_key s h s h (JInt t) (JInt t) m1 m2 l1 l2 t t ds
              Hwf eq_refl eq_refl Hr Hr eq_refl) as (A & B & C & D & _).
  auto.
Qed.

Lemma reupload_appends_to_one_record_witness :
  stored_logs (key_name "s1" "h1" 1000)
    (exec (LogUploadPage_post (one_line_upload "s1" "h1" (JInt 1000) "again" 2))
       (exec (LogUploadPage_post (one_line_upload "s1" "h1" (JInt 1000) "boot" 1))
          empty_datastore))
  = [{| message := "boot"; level := 1; timestamp := 1000 |};
     {| message := "again"; level := 2; timestamp := 1000 |}].
Proof.
  apply (reupload_appends_to_one_record empty_datastore "s1" "h1" 1000
           "boot" "again" 1 2).
  - apply KindFacts.well_formed_empty.
  - unfold DATETIME_MIN, DATETIME_MAX. lia.
  - storable.
  - storable.
Defined.

(** ** C8: record keys that collide *)

Lemma key_name_collision (t : Z) : key_name "ab" "c" t = key_name "a" "bc" t.
Proof. reflexivity. Qed.

(** C8: service "ab" with host "c" and service "a" with host "bc" get the
    same record key at every timestamp, and their uploads at one timestamp
    are merged: one record under that key holds both log lines (a new record
    carries the service and host of the first upload). *)
Theorem concatenated_keys_collide (ds : Datastore) (t : Z)
  (m1 m2 : string) (l1 l2 : Z) :
  Kind.well_formed (request_log_lines ds) ->
  DATETIME_MIN <= t <= DATETIME_MAX ->
  let key := key_name "ab" "c" t in
  let ds1 := exec (LogUploadPage_post (one_line_upload "ab" "c" (JInt t) m1 l1)) ds in
  let ds2 := exec (LogUploadPage_post (one_line_upload "a" "bc" (JInt t) m2 l2)) ds1 in
  ("ab", "c") <> ("a", "bc")
  /\ key_name "a" "bc" t = key
  /\ Kind.count key (request_log_lines ds2) = 1%nat
  /\ stored_logs key ds2 =
       (stored_logs key ds
        ++ [{| message := m1; level := l1; timestamp := t |};
            {| message := m2; level := l2; timestamp := t |}])%list
  /\ (Kind.get_by_id key (request_log_lines ds) = None ->
      exists r, Kind.get_by_id key (request_log_lines ds2) = Some r
                /\ service_name r = "ab" /\ host r = "c").
Proof.
  intros Hwf Hr key ds1 ds2.
  destruct (post_two_same_key "ab" "c" "a" "bc" (JInt t) (JInt t) m1 m2 l1 l2
              t t ds Hwf eq_refl eq_refl Hr Hr (key_name_collision t))
    as (_ & _ & C & D & E).
  repeat split; try assumption; try discriminate.
Qed.

Lemma concatenated_keys_collide_witness :
  Kind.count (key_name "ab" "c" 1000)
    (request_log_lines
       (exec (LogUploadPage_post (one_line_upload "a" "bc" (JInt 1000) "two" 1))
          (exec (LogUploadPage_post (one_line_upload "ab" "c" (JInt 1000) "one" 1))
             empty_datastore))) = 1%nat.
Proof.
  apply (concatenated_keys_collide empty_datastore 1000 "one" "two" 1 1).
  - apply KindFacts.well_formed_empty.
  - unfold DATETIME_MIN, DATETIME_MAX. lia.
Defined.

(** ** C9: timestamps are truncated to whole seconds *)

(** On a non-negative float, [int] is the floor. *)
Lemma python_int_floor (q : Q) :
  0 <= Qnum q -> python_int (JFloat q) = inr (Qnum q / Z.pos (Qden q)).
Proof.
  intros Hq. simpl. f_equal. apply Z.quot_div_nonneg; lia.
Qed.

Lemma python_int_same_floor (q1 q2 : Q) :
  0 <= Qnum q1 -> 0 <= Qnum q2 ->
  Qnum q1 / Z.pos (Qden q1) = Qnum q2 / Z.pos (Qden q2) ->
  python_int (JFloat q1) = python_int (JFloat q2).
Proof.
  intros H1 H2 E. rewrite !python_int_floor by assumption. now rewrite E.
Qed.

(** [int] sends a timestamp to the whole second it lies in, and to no
    other. *)
Lemma quot_in_second (n d t : Z) :
  0 < d ->
  match t with
  | Z0 => - d < n < d
  | Zpos _ => t * d <= n < (t + 1) * d
  | Zneg _ => (t - 1) * d < n <= t * d
  end ->
  Z.quot n d = t.
Proof.
  intros Hd Hin.
  assert (Hnonneg : forall a k, 0 <= k -> k * d <= a < (k + 1) * d ->
                                Z.quot a d = k).
  { intros a k Hk Ha. rewrite Z.quot_div_nonneg by nia.
    symmetry. apply (Z.div_unique_pos _ _ k (a - k * d)); lia. }
  destruct t as [| p | p].
  - destruct (Z.le_gt_cases 0 n) as [L | G].
    + apply (Hnonneg n 0); lia.
    + rewrite <- (Z.opp_involutive n), Z.quot_opp_l by lia.
      rewrite (Hnonneg (- n) 0); lia.
  - apply Hnonneg; lia.
  - rewrite <- (Z.opp_involutive n), Z.quot_opp_l by lia.
    rewrite (Hnonneg (- n) (- Z.neg p)); lia.
Qed.

Lemma python_int_in_whole_second (x : JNumber) (t : Z) :
  in_whole_second x t -> python_int x = inr t.
Proof.
  destruct x as [z | q | |]; simpl; try contradiction.
  - now intros ->.
  - intros Hin. f_equal. apply quot_in_second; [lia | exact Hin].
Qed.

Lemma in_whole_second_python_int (x : JNumber) (t : Z) :
  python_int x = inr t -> in_whole_second x t.
Proof.
  destruct x as [z | q | |]; simpl; try discriminate.
  - now intros [= ->].
  - intros [= <-].
    set (n := Qnum q). set (d := Z.pos (Qden q)).
    assert (Hd : 0 < d) by (unfold d; lia).
    pose proof (Z.quot_rem' n d) as E.
    destruct (Z.le_gt_cases 0 n) as [L | G].
    + pose proof (Z.rem_bound_pos n d L Hd) as R.
      pose proof (Z.quot_pos n d L Hd) as P.
      destruct (Z.quot n d) as [| p | p] eqn:Q; nia.
    + pose proof (Z.rem_bound_pos_neg n d Hd ltac:(lia)) as R.
      pose proof (Z.quot_opp_l (- n) d ltac:(lia)) as O.
      rewrite Z.opp_involutive in O.
      pose proof (Z.quot_pos (- n) d ltac:(lia) Hd) as P.
      destruct (Z.quot n d) as [| p | p] eqn:Q; nia.
Qed.

(** C9: the timestamp of an uploaded line is truncated by [int] before the
    key is built and before it is stored.  Two lines of one service and host
    whose timestamps lie in the same whole second [t], equal or not, get the
    same key, and after both uploads one record under that key holds both
    lines, each stamped with the whole second [t].  The lines are ones the
    Datastore can hold and [t] is a second [datetime] can represent. *)
Theorem same_second_same_record (ds : Datastore) (s h : string)
  (x1 x2 : JNumber) (t : Z) (m1 m2 : string) (l1 l2 : Z) :
  Kind.well_formed (request_log_lines ds) ->
  in_whole_second x1 t -> in_whole_second x2 t ->
  DATETIME_MIN <= t <= DATETIME_MAX ->
  storable_line s h t l1 -> storable_line s h t l2 ->
  let key := key_name s h t in
  let ds1 := exec (LogUploadPage_post (one_line_upload s h x1 m1 l1)) ds in
  let ds2 := exec (LogUploadPage_post (one_line_upload s h x2 m2 l2)) ds1 in
  result (LogUploadPage_post (one_line_upload s h x1 m1 l1)) ds = inr tt
  /\ result (LogUploadPage_post (one_line_upload s h x2 m2 l2)) ds1 = inr tt
  /\ Kind.count key (request_log_lines ds2) = 1%nat
  /\ stored_logs key ds2 =
       (stored_logs key ds
        ++ [{| message := m1; level := l1; timestamp := t |};
            {| message := m2; level := l2; timestamp := t |}])%list.
Proof.
  intros Hwf H1 H2 Hr _ _ key ds1 ds2.
  apply python_int_in_whole_second in H1, H2.
  destruct (post_two_same_key s h s h x1 x2 m1 m2 l1 l2 t t ds
              Hwf H1 H2 Hr Hr eq_refl) as (A & B & C & D & _).
  auto.
Qed.

Lemma same_second_same_record_witness :
  stored_logs (key_name "s1" "h1" 1000)
    (exec (LogUploadPage_post
             (one_line_upload "s1" "h1" (JFloat (Qmake 4003 4)) "late" 1))
       (exec (LogUploadPage_post
                (one_line_upload "s1" "h1" (JFloat (Qmake 4001 4)) "early" 1))
          empty_datastore))
  = [{| message := "early"; level := 1; timestamp := 1000 |};
     {| message := "late"; level := 1; timestamp := 1000 |}].
Proof.
  apply (same_second_same_record empty_datastore "s1" "h1"
           (JFloat (Qmake 4001 4)) (JFloat (Qmake 4003 4)) 1000
           "early" "late" 1 1).
  - apply KindFacts.well_formed_empty.
  - simpl. lia.
  - simpl. lia.
  - unfold DATETIME_MIN, DATETIME_MAX. lia.
  - storable.
  - storable.
Defined.

(** ** C4: registering a host twice *)

Lemma host_in_In (h : string) (hs : list string) :
  host_in h hs = true <-> In h hs.
Proof.
  unfold host_in. rewrite existsb_exists. split.
  - intros (x & Hin & Heq). apply String.eqb_eq in Heq. now subst.
  - intros Hin. exists h. split; [assumption | apply String.eqb_refl].
Qed.

Lemma host_in_snoc (h : string) (hs : list string) :
  host_in h (hs ++ [h]) = true.
Proof. apply host_in_In, in_or_app. right. now left. Qed.

Lemma list_hosts_put (s : string) (hs : list string) (ds : Datastore) :
  list_hosts s (set_logged_services (Kind.put s {| hosts := hs |}) ds) = hs.
Proof.
  unfold list_hosts, set_logged_services. simpl.
  now rewrite KindFacts.get_by_id_put_same.
Qed.

(** What [register_host] leaves: the hosts of the service, with the host
    added at the end when it was not among them. *)
Lemma register_host_hosts (s h : string) (ds : Datastore) :
  list_hosts s (exec (register_host s h) ds) =
  if host_in h (list_hosts s ds) then list_hosts s ds
  else (list_hosts s ds ++ [h])%list.
Proof.
  unfold exec, register_host, bind, gets. simpl.
  unfold list_hosts at 2 3 4.
  destruct (Kind.get_by_id s (logged_services ds)) as [svc |] eqn:G; simpl.
  - destruct (host_in h (hosts svc)) eqn:Hin; simpl.
    + unfold list_hosts. now rewrite G.
    + apply list_hosts_put.
  - apply list_hosts_put.
Qed.

Lemma register_host_exec (s h : string) (ds : Datastore) :
  exec (register_host s h) ds =
  match Kind.get_by_id s (logged_services ds) with
  | None => set_logged_services (Kind.put s {| hosts := [h] |}) ds
  | Some svc =>
      if host_in h (hosts svc) then ds
      else set_logged_services
             (Kind.put s {| hosts := (hosts svc ++ [h])%list |}) ds
  end.
Proof.
  unfold exec, register_host, bind, gets. simpl.
  destruct (Kind.get_by_id s (logged_services ds)) as [svc |]; simpl;
    [destruct (host_in h (hosts svc)) |]; reflexivity.
Qed.

Lemma register_host_again (s h : string) (ds : Datastore) :
  exec (register_host s h) (exec (register_host s h) ds)
  = exec (register_host s h) ds.
Proof.
  assert (Hput : forall hs,
             host_in h hs = true ->
             exec (register_host s h)
               (set_logged_services (Kind.put s {| hosts := hs |}) ds)
             = set_logged_services (Kind.put s {| hosts := hs |}) ds).
  { intros hs Hin. rewrite register_host_exec. simpl.
    rewrite KindFacts.get_by_id_put_same. simpl. now rewrite Hin. }
  rewrite (register_host_exec s h ds).
  destruct (Kind.get_by_id s (logged_services ds)) as [svc |] eqn:G.
  - destruct (host_in h (hosts svc)) eqn:Hin.
    + rewrite register_host_exec, G, Hin. reflexivity.
    + apply Hput, host_in_snoc.
  - apply Hput. apply (host_in_snoc h []).
Qed.

(** C4: registering a host for a service a second time changes nothing: the
    Datastore is the one the first registration left, the host is among the
    service's hosts, and it occurs there once if it was not registered
    before (as often as before otherwise).  The service name is a key name
    the Datastore takes (not empty, at most 500 bytes) and the host an
    indexed string (at most 500 bytes): outside these the registration
    raises. *)
Theorem register_host_idempotent (ds : Datastore) (s h : string) :
  storable_host s h ->
  let ds1 := exec (register_host s h) ds in
  exec (register_host s h) ds1 = ds1
  /\ list_hosts s (exec (register_host s h) ds1) = list_hosts s ds1
  /\ In h (list_hosts s ds1)
  /\ count_occ string_dec (list_hosts s ds1) h
     = Nat.max 1 (count_occ string_dec (list_hosts s ds) h).
Proof.
  intros _ ds1. subst ds1. rewrite register_host_again.
  split; [reflexivity |]. split; [reflexivity |].
  rewrite register_host_hosts.
  destruct (host_in h (list_hosts s ds)) eqn:Hin.
  - apply host_in_In in Hin. split; [assumption |].
    apply (count_occ_In string_dec) in Hin. lia.
  - assert (Hnot : ~ In h (list_hosts s ds)).
    { intros Hc. apply host_in_In in Hc. congruence. }
    split; [apply in_or_app; right; now left |].
    rewrite count_occ_app.
    apply (count_occ_not_In string_dec) in Hnot. rewrite Hnot. simpl.
    destruct (string_dec h h); [reflexivity | congruence].
Qed.

Lemma register_host_idempotent_witness :
  exec (register_host "svc" "h1")
    (exec (register_host "svc" "h1") empty_datastore)
  = exec (register_host "svc" "h1") empty_datastore
  /\ list_hosts "svc"
       (exec (register_host "svc" "h1")
          (exec (register_host "svc" "h1") empty_datastore))
     = list_hosts "svc" (exec (register_host "svc" "h1") empty_datastore)
  /\ In "h1" (list_hosts "svc" (exec (register_host "svc" "h1") empty_datastore))
  /\ count_occ string_dec
       (list_hosts "svc" (exec (register_host "svc" "h1") empty_datastore)) "h1"
     = 1%nat.
Proof.
  apply (register_host_idempotent empty_datastore "svc" "h1"). storable.
Defined.

Example register_h1_twice :
  list_hosts "svc"
    (exec (register_host "svc" "h1")
       (exec (register_host "svc" "h1") empty_datastore)) = ["h1"].
Proof. reflexivity. Qed.

(** Uploading twice from one host registers it as uploading once does. *)
Lemma post_twice_registry (d1 d2 : UploadData) (ds : Datastore) :
  data_service_name d2 = data_service_name d1 ->
  data_host d2 = data_host d1 ->
  logged_services (exec (LogUploadPage_post d2) (exec (LogUploadPage_post d1) ds))
  = logged_services (exec (LogUploadPage_post d1) ds).
Proof.
  intros Hs Hh. rewrite (post_registry d2), Hs, Hh.
  set (s := data_service_name d1). set (h := data_host d1).
  set (ds1 := exec (LogUploadPage_post d1) ds).
  assert (E : logged_services ds1 = logged_services (exec (register_host s h) ds))
    by apply post_registry.
  assert (R : forall a b,
             logged_services a = logged_services b ->
             logged_services (exec (register_host s h) a)
             = logged_services (exec (register_host s h) b)).
  { intros a b Hab. unfold exec, register_host, bind, gets. simpl.
    rewrite Hab.
    destruct (Kind.get_by_id s (logged_services b)) as [svc |]; simpl;
      [destruct (host_in h (hosts svc)); simpl |];
      unfold set_logged_services; simpl; congruence. }
  rewrite (R _ _ E), register_host_again. now symmetry.
Qed.

(** ** C10 and C6: the cursor parameter of the viewer *)

Section Viewer.
Context `{CursorCodec}.
Variables (is_cloud_admin : bool) (apps_user_is_admin_on : list string).

Local Abbreviation get :=
  (LogServiceHostPage_get is_cloud_admin apps_user_is_admin_on).


(** A cursor that does not decode: the handler raises before it queries. *)
Lemma get_invalid_cursor (s h c : string) (ds : Datastore) :
  c <> "" -> c <> "None" -> from_urlsafe c = None ->
  get s h c ds = (inl BadValueError, ds).
Proof.
  intros Hne Hnn Hbad. unfold LogServiceHostPage_get, bind.
  apply String.eqb_neq in Hne, Hnn. rewrite Hne, Hnn. simpl.
  now rewrite Hbad.
Qed.

(** A cursor that decodes: the page after its position. *)
Lemma get_valid_cursor (s h c : string) (cur : Cursor) (ds : Datastore) :
  c <> "" -> c <> "None" -> from_urlsafe c = Some cur ->
  exists page,
    get s h c ds = (inr page, ds)
    /\ (query page, next_cursor page, is_more page) =
       let '(results, next, more) :=
         fetch_page LOGS_PER_PAGE (Some cur) (matching s h ds) in
       (results, option_map urlsafe next, more).
Proof.
  intros Hne Hnn Hok. unfold LogServiceHostPage_get, matching, bind, gets.
  apply String.eqb_neq in Hne, Hnn. rewrite Hne, Hnn. simpl.
  rewrite Hok. simpl.
  destruct (String.eqb h "all"); simpl; eexists; split; reflexivity.
Qed.
End Viewer.


(** C6, as amended: a cursor parameter that is neither empty nor "None" and
    does not decode makes the handler raise [BadValueError] out of the
    cursor's construction: nothing is queried or rendered, the Datastore is
    unchanged, and the request is answered by the 500 handler.  No
    cursor-expired condition exists and the viewer is not sent back to the
    first page. *)
Theorem invalid_cursor_raises `{CursorCodec}
  (is_cloud_admin : bool) (apps_user_is_admin_on : list string)
  (s h c : string) (ds : Datastore) :
  c <> "" -> c <> "None" -> from_urlsafe c = None ->
  LogServiceHostPage_get is_cloud_admin apps_user_is_admin_on s h c ds
  = (inl BadValueError, ds)
  /\ viewer_status
       (result (LogServiceHostPage_get is_cloud_admin apps_user_is_admin_on
                  s h c) ds) = 500.
Proof.
  intros Hne Hnn Hbad. unfold result.
  rewrite (get_invalid_cursor is_cloud_admin apps_user_is_admin_on s h c ds
             Hne Hnn Hbad).
  split; reflexivity.
Qed.

Lemma invalid_cursor_raises_witness :
  @LogServiceHostPage_get tagged_codec true [] "s1" "h1" "x" empty_datastore
  = (inl BadValueError, empty_datastore).
Proof.
  apply (@invalid_cursor_raises tagged_codec true [] "s1" "h1" "x"
           empty_datastore).
  - discriminate.
  - discriminate.
  - reflexivity.
Defined.

(** C6, as stated, fails: with the cursor "x", which does not decode, the
    handler returns no page at all, neither the first page nor a notice to
    restart; the exception leaves it. *)
Lemma invalid_cursor_not_surfaced :
  ~ (forall (s h c : string) (ds : Datastore),
        c <> "" -> c <> "None" -> @from_urlsafe tagged_codec c = None ->
        exists page,
          result (@LogServiceHostPage_get tagged_codec true [] s h c) ds
          = inr page).
Proof.
  intros claim.
  destruct (claim "s1" "h1" "x" empty_datastore)
    as [page Hpage]; try discriminate; try reflexivity.
Qed.

(** ** C5: the refresh tasks of uploads and deletions *)

Section RefreshTasks.
Variable refuses : Task -> list Task -> bool.

(** Whatever the queue does, the tasks added are the first none, one or
    two of the pair. *)
Lemma enqueue_refresh_prefix (sv : Server) :
  result (enqueue_refresh refuses) sv = inr tt
  /\ exists added,
       taskqueue (exec (enqueue_refresh refuses) sv)
       = (taskqueue sv ++ added)%list
       /\ (added = [] \/ added = [refresh_now]
           \/ added = [refresh_now; refresh_later]).
Proof.
  unfold result, exec, enqueue_refresh, try_except, bind, taskqueue_add,
    logging_exception, modify.
  fold refresh_now. fold refresh_later.
  destruct (refuses refresh_now (taskqueue sv)); simpl.
  - split; [reflexivity |]. exists []. rewrite app_nil_r. auto.
  - destruct (refuses refresh_later (taskqueue sv ++ [refresh_now])); simpl.
    + split; [reflexivity |]. exists [refresh_now]. auto.
    + split; [reflexivity |]. exists [refresh_now; refresh_later].
      rewrite <- app_assoc. auto.
Qed.

Hypothesis accepts : forall task queue, refuses task queue = false.

Lemma enqueue_refresh_accepted (sv : Server) :
  enqueue_refresh refuses sv =
  (inr tt, {| taskqueue := (taskqueue sv ++ [refresh_now; refresh_later])%list;
              logged := logged sv |}).
Proof.
  unfold enqueue_refresh, try_except, bind, taskqueue_add.
  fold refresh_now. fold refresh_later.
  repeat (rewrite accepts; simpl).
  now rewrite <- app_assoc.
Qed.

Lemma upload_success_enqueues (msg : string) (sv : Server) :
  truthy msg = true ->
  AppUploadPage_post refuses true true (inr msg) sv =
  (inr {| error_message := ""; success_message := msg |},
   {| taskqueue := (taskqueue sv ++ [refresh_now; refresh_later])%list;
      logged := logged sv |}).
Proof.
  intros Hmsg. unfold AppUploadPage_post, bind, ret. simpl.
  rewrite Hmsg, enqueue_refresh_accepted. reflexivity.
Qed.

Lemma delete_enqueues (appname msg : string) (admin : bool)
  (owned : list string) (sv : Server) :
  admin || str_in appname owned = true ->
  AppDeletePage_post refuses appname admin owned (inr msg) sv =
  (inr {| flash_message := msg |},
   {| taskqueue := (taskqueue sv ++ [refresh_now; refresh_later])%list;
      logged := logged sv |}).
Proof.
  intros Hauth. unfold AppDeletePage_post, bind, ret. rewrite Hauth. simpl.
  rewrite enqueue_refresh_accepted. reflexivity.
Qed.
End RefreshTasks.

(** An upload that does not succeed leaves the queue as it was, whatever the
    queue service would do: no file, no right to upload, an exception of the
    helper, or an empty success message. *)
Lemma failed_upload_enqueues_nothing (refuses : Task -> list Task -> bool)
  (has_file can_upload_apps : bool) (upload_app : Exn + string) (sv : Server) :
  (has_file && can_upload_apps = false
   \/ (exists e, upload_app = inl e) \/ upload_app = inr "") ->
  exec (AppUploadPage_post refuses has_file can_upload_apps upload_app) sv = sv.
Proof.
  unfold exec, AppUploadPage_post, bind, ret.
  intros [Hno | [[e ->] | ->]].
  - destruct has_file, can_upload_apps; simpl in *; try discriminate;
      reflexivity.
  - destruct has_file, can_upload_apps; simpl; try reflexivity.
    destruct e; reflexivity.
  - destruct has_file, can_upload_apps; reflexivity.
Qed.

(** C5: on a queue that accepts the tasks, an upload that succeeds and a
    deletion of an application each add exactly two refresh tasks to the
    queue, the first with no delay and the second delayed by
    REFRESH_WAIT_TIME = 10; an upload that fails adds none. *)
Theorem mutation_enqueues_two_refreshes (refuses : Task -> list Task -> bool)
  (sv : Server) :
  (forall task queue, refuses task queue = false) ->
  (forall msg, truthy msg = true ->
     taskqueue (exec (AppUploadPage_post refuses true true (inr msg)) sv)
     = (taskqueue sv
        ++ [{| url := "/status/refresh"; countdown := 0 |};
            {| url := "/status/refresh"; countdown := 10 |}])%list)
  /\ (forall appname msg admin owned,
        admin || str_in appname owned = true ->
        taskqueue
          (exec (AppDeletePage_post refuses appname admin owned (inr msg)) sv)
        = (taskqueue sv
           ++ [{| url := "/status/refresh"; countdown := 0 |};
               {| url := "/status/refresh"; countdown := 10 |}])%list)
  /\ (forall has_file can_upload_apps e,
        taskqueue
          (exec (AppUploadPage_post refuses has_file can_upload_apps (inl e)) sv)
        = taskqueue sv).
Proof.
  intros Hacc. repeat split.
  - intros msg Hmsg. unfold exec.
    now rewrite (upload_success_enqueues refuses Hacc msg sv Hmsg).
  - intros appname msg admin owned Hauth. unfold exec.
    now rewrite (delete_enqueues refuses Hacc appname msg admin owned sv Hauth).
  - intros has_file can_upload_apps e.
    rewrite failed_upload_enqueues_nothing; [reflexivity |].
    right. left. now exists e.
Qed.

Lemma mutation_enqueues_two_refreshes_witness :
  taskqueue
    (exec (AppUploadPage_post accepts_all true true (inr "uploaded")) empty_server)
  = [{| url := "/status/refresh"; countdown := 0 |};
     {| url := "/status/refresh"; countdown := 10 |}].
Proof.
  apply (mutation_enqueues_two_refreshes accepts_all empty_server).
  - reflexivity.
  - reflexivity.
Defined.

(** ** C7: every delivered trigger runs a refresh *)

Lemma run_app (a b : list Event) (s : Scheduler) :
  run (a ++ b) s =
  match run a s with
  | Some s' => run b s'
  | None => None
  end.
Proof.
  revert s. induction a as [| ev a IH]; intros s; simpl; [reflexivity |].
  destruct (step ev s); [apply IH | reflexivity].
Qed.

Lemma run_triggers (n : nat) (s : Scheduler) :
  run (repeat Trigger n) s =
  Some {| pending := (n + pending s)%nat; in_flight := in_flight s;
          dashboard := dashboard s |}.
Proof.
  revert s. induction n as [| n IH]; intros s; simpl.
  - now destruct s.
  - rewrite IH. simpl. f_equal. f_equal. lia.
Qed.

Lemma run_deliveries (n : nat) : forall p r c,
  run (List.concat (repeat [Dispatch; Complete] n))
    {| pending := (n + p)%nat; in_flight := r;
       dashboard := {| refresh_cycles := c |} |}
  = Some {| pending := p; in_flight := r;
            dashboard := {| refresh_cycles := (n + c)%nat |} |}.
Proof.
  induction n as [| n IH]; intros p r c; simpl; [reflexivity |].
  unfold exec; simpl. rewrite IH. f_equal. f_equal. f_equal. lia.
Qed.

(** Triggers are never dropped or merged: they are pending, in flight, or
    have run their cycle. *)
Lemma run_conserves_triggers (evs : list Event) : forall s s',
  run evs s = Some s' ->
  (pending s' + in_flight s' + refresh_cycles (dashboard s'))%nat
  = (triggers evs + (pending s + in_flight s + refresh_cycles (dashboard s)))%nat.
Proof.
  induction evs as [| ev evs IH]; intros s s' Hrun; simpl in Hrun.
  - injection Hrun as <-. reflexivity.
  - destruct (step ev s) as [s1 |] eqn:Hstep; [| discriminate].
    rewrite (IH s1 s' Hrun).
    destruct ev; simpl in Hstep.
    + injection Hstep as <-. unfold triggers. simpl. lia.
    + destruct (pending s) eqn:P; [discriminate |].
      injection Hstep as <-. unfold triggers. simpl. lia.
    + destruct (in_flight s) eqn:R; [discriminate |].
      injection Hstep as <-. unfold triggers, exec. simpl. lia.
Qed.

Lemma cycles_equal_triggers (evs : list Event) (s : Scheduler) :
  run evs idle = Some s -> quiescent s ->
  refresh_cycles (dashboard s) = triggers evs.
Proof.
  intros Hrun [Hp Hr]. apply run_conserves_triggers in Hrun.
  simpl in Hrun. lia.
Qed.

(** C7, as amended: the handler runs one refresh for every trigger delivered
    to it and keeps no record of a refresh in progress, so nothing is
    coalesced: when n triggers arrive while a cycle runs, n further cycles
    follow it, one per trigger. *)
Theorem triggers_are_not_coalesced (n : nat) : follow_up_cycles n = Some n.
Proof.
  unfold follow_up_cycles, mid_cycle_trace.
  change ([Trigger; Dispatch] ++ repeat Trigger n ++ [Complete]
          ++ List.concat (repeat [Dispatch; Complete] n))%list
    with (Trigger :: Dispatch :: (repeat Trigger n ++ [Complete]
          ++ List.concat (repeat [Dispatch; Complete] n)))%list.
  cbn [run step idle pending in_flight dashboard].
  rewrite run_app, run_triggers. cbn [pending in_flight dashboard].
  cbn [app run step in_flight pending dashboard].
  unfold exec; simpl snd.
  rewrite (run_deliveries n 0 0 1). simpl. f_equal. lia.
Qed.

(** C7, as stated, fails: three triggers that arrive while a cycle runs are
    followed by three cycles, not by one. *)
Lemma three_triggers_three_cycles :
  ~ (forall n : nat, (1 <= n)%nat -> follow_up_cycles n = Some 1%nat).
Proof.
  intros claim. specialize (claim 3%nat ltac:(lia)).
  vm_compute in claim. discriminate.
Qed.

(** ** Sorted lists of entities *)

Lemma well_formed_key_lt (k : Kind.t RequestLogLine) :
  Kind.well_formed k <-> StronglySorted key_lt k.
Proof.
  unfold Kind.well_formed, Kind.keys.
  induction k as [| e k IH]; simpl.
  - split; constructor.
  - split; intros Hs; apply StronglySorted_inv in Hs as [Hs Hall];
      (constructor; [now apply IH |]).
    + rewrite Forall_map in Hall. exact Hall.
    + rewrite Forall_map. exact Hall.
Qed.

Lemma StronglySorted_filter {A} (R : A -> A -> Prop) (f : A -> bool)
  (l : list A) :
  StronglySorted R l -> StronglySorted R (filter f l).
Proof.
  induction 1 as [| a l Hs IH Hall]; simpl; [constructor |].
  destruct (f a); [| exact IH].
  constructor; [exact IH |].
  apply Forall_forall. intros x Hx. apply filter_In in Hx as [Hx _].
  rewrite Forall_forall in Hall. now apply Hall.
Qed.

Lemma StronglySorted_app_inv {A} (R : A -> A -> Prop) (l1 l2 : list A) :
  StronglySorted R (l1 ++ l2) ->
  StronglySorted R l1 /\ StronglySorted R l2
  /\ forall a b, In a l1 -> In b l2 -> R a b.
Proof.
  induction l1 as [| x l1 IH]; simpl; intros Hs.
  - repeat split; [constructor | assumption | intros a b []].
  - apply StronglySorted_inv in Hs as [Hs Hall].
    destruct (IH Hs) as (H1 & H2 & H12).
    rewrite Forall_app in Hall. destruct Hall as [Ha1 Ha2].
    repeat split; [now constructor | assumption |].
    intros a b [<- | Ha] Hb; [| now apply H12].
    rewrite Forall_forall in Ha2. now apply Ha2.
Qed.


Lemma filter_all {A} (f : A -> bool) (l : list A) :
  (forall x, In x l -> f x = true) -> filter f l = l.
Proof.
  induction l as [| a l IH]; simpl; intros Hf; [reflexivity |].
  rewrite Hf by now left. f_equal. apply IH. intros x Hx. apply Hf. now right.
Qed.

Lemma filter_none {A} (f : A -> bool) (l : list A) :
  (forall x, In x l -> f x = false) -> filter f l = [].
Proof.
  induction l as [| a l IH]; simpl; intros Hf; [reflexivity |].
  rewrite Hf by now left. apply IH. intros x Hx. apply Hf. now right.
Qed.

Lemma filter_filter_implied {A} (f g : A -> bool) (l : list A) :
  (forall x, f x = true -> g x = true) ->
  filter f (filter g l) = filter f l.
Proof.
  intros Himp. induction l as [| a l IH]; simpl; [reflexivity |].
  destruct (g a) eqn:G; simpl.
  - now rewrite IH.
  - destruct (f a) eqn:F; [| exact IH].
    apply Himp in F. congruence.
Qed.

(** In a sorted list, the entities strictly after the key of [e] are the
    ones that follow [e]. *)
Lemma filter_after_entity (front back : Kind.t RequestLogLine)
  (e : string * RequestLogLine) :
  StronglySorted key_lt (front ++ e :: back) ->
  filter (fun x => String.ltb (fst e) (fst x)) (front ++ e :: back) = back.
Proof.
  intros Hs. apply StronglySorted_app_inv in Hs as (_ & Hs & Hfront).
  apply StronglySorted_inv in Hs as [_ Hback].
  rewrite filter_app. simpl. rewrite string_ltb_irrefl.
  rewrite filter_none, filter_all; [reflexivity | |].
  - intros x Hx. rewrite Forall_forall in Hback. now apply Hback.
  - intros x Hx. apply string_ltb_asym. apply (Hfront x e Hx). now left.
Qed.

(** ** C3: following the pages of the viewer *)

Lemma after_cursor_sorted (cur : option Cursor) (m : Kind.t RequestLogLine) :
  StronglySorted key_lt m -> StronglySorted key_lt (after_cursor cur m).
Proof.
  destruct cur as [c |]; simpl; [apply StronglySorted_filter | trivial].
Qed.

(** Restarting after an entity of the current rest skips exactly the rest
    up to that entity. *)
Lemma after_cursor_advance (cur : option Cursor) (m front back : Kind.t RequestLogLine)
  (e : string * RequestLogLine) :
  StronglySorted key_lt m ->
  after_cursor cur m = (front ++ e :: back)%list ->
  after_cursor (Some {| position := fst e |}) m = back.
Proof.
  intros Hs Hrest.
  pose proof (after_cursor_sorted cur m Hs) as Hsr. rewrite Hrest in Hsr.
  simpl. destruct cur as [c |]; simpl in Hrest.
  - rewrite <- (filter_filter_implied _
                  (fun x => String.ltb (position c) (fst x))).
    + rewrite Hrest. now apply filter_after_entity.
    + intros x Hx.
      assert (Hin : In e (filter (fun x => String.ltb (position c) (fst x)) m)).
      { rewrite Hrest. apply in_or_app. right. now left. }
      apply filter_In in Hin as [_ Hce].
      eapply string_ltb_trans; eassumption.
  - rewrite Hrest. now apply filter_after_entity.
Qed.

Lemma firstn_last {A} (n : nat) (l : list A) :
  (n < List.length l)%nat -> (0 < n)%nat ->
  exists front e, firstn n l = (front ++ [e])%list
                  /\ l = (front ++ e :: skipn n l)%list.
Proof.
  intros Hlen Hn.
  destruct (exists_last (l := firstn n l)) as (front & e & Hfe).
  - intros Hnil. apply (f_equal (@List.length A)) in Hnil.
    rewrite length_firstn in Hnil. simpl in Hnil. lia.
  - exists front, e. split; [exact Hfe |].
    rewrite <- (firstn_skipn n l) at 1. rewrite Hfe, <- app_assoc.
    reflexivity.
Qed.

Section Pagination.
Context `{CursorCodec}.
Variables (is_cloud_admin : bool) (apps_user_is_admin_on : list string).
Variables (s h : string) (ds : Datastore).

Local Abbreviation get :=
  (LogServiceHostPage_get is_cloud_admin apps_user_is_admin_on s h).
Local Abbreviation pages_from :=
  (fun steps param =>
     paginate steps is_cloud_admin apps_user_is_admin_on s h param ds).

(** One request, from no cursor or from a cursor the viewer got. *)
Lemma get_from (cur : option Cursor) :
  exists page,
    get (param_of cur) ds = (inr page, ds)
    /\ (query page, next_cursor page, is_more page) =
       let '(results, next, more) :=
         fetch_page LOGS_PER_PAGE cur (matching s h ds) in
       (results, option_map urlsafe next, more).
Proof.
  destruct cur as [c |]; simpl param_of.
  - apply get_valid_cursor;
      [apply urlsafe_nonempty | apply urlsafe_not_None
      | apply from_urlsafe_urlsafe].
  - unfold LogServiceHostPage_get, matching, bind, gets, ret. simpl.
    destruct (String.eqb h "all"); simpl; eexists; split; reflexivity.
Qed.

Lemma pages_from_cursor (steps : nat) : forall cur,
  StronglySorted key_lt (matching s h ds) ->
  (List.length (after_cursor cur (matching s h ds)) < steps)%nat ->
  exists pages,
    pages_from steps (param_of cur) = Some pages
    /\ List.concat pages = map snd (after_cursor cur (matching s h ds))
    /\ Forall (fun p => (List.length p <= LOGS_PER_PAGE)%nat) pages.
Proof.
  induction steps as [| n IH]; intros cur Hs Hlen; [lia |].
  destruct (get_from cur) as (page & Hget & Hpage).
  cbn [paginate]. rewrite Hget.
  set (rest := after_cursor cur (matching s h ds)) in *.
  assert (Hq : query page = map snd (firstn LOGS_PER_PAGE rest))
    by exact (f_equal (fun x => fst (fst x)) Hpage).
  assert (Hm : is_more page = (LOGS_PER_PAGE <? List.length rest)%nat)
    by exact (f_equal snd Hpage).
  assert (Hn : next_cursor page =
               option_map urlsafe
                 (if (LOGS_PER_PAGE <? List.length rest)%nat
                  then match rev (firstn LOGS_PER_PAGE rest) with
                       | e :: _ => Some {| position := fst e |}
                       | [] => None
                       end
                  else None))
    by exact (f_equal (fun x => snd (fst x)) Hpage).
  clear Hpage.
  destruct (LOGS_PER_PAGE <? List.length rest)%nat eqn:Hlt; rewrite Hm.
  - apply Nat.ltb_lt in Hlt.
    destruct (firstn_last LOGS_PER_PAGE rest Hlt) as (front & e & Hfe & Hrest);
      [unfold LOGS_PER_PAGE; lia |].
    rewrite Hfe, rev_app_distr in Hn. simpl in Hn. rewrite Hn.
    change (cursor_param (Some (urlsafe {| position := fst e |})))
      with (param_of (Some {| position := fst e |})).
    pose proof (after_cursor_advance cur _ front _ e Hs Hrest) as Hadv.
    destruct (IH (Some {| position := fst e |}) Hs) as (pages & Hrun & Hcat & Hsz).
    { rewrite Hadv, length_skipn. unfold LOGS_PER_PAGE in *. lia. }
    rewrite Hrun. eexists. split; [reflexivity |]. split.
    + cbn [List.concat]. rewrite Hcat, Hadv, Hq, <- map_app, firstn_skipn.
      reflexivity.
    + constructor; [| exact Hsz].
      rewrite Hq, length_map. apply firstn_le_length.
  - apply Nat.ltb_ge in Hlt.
    eexists. split; [reflexivity |]. split.
    + cbn [List.concat]. rewrite app_nil_r, Hq, firstn_all2 by assumption.
      reflexivity.
    + constructor; [| constructor].
      rewrite Hq, length_map. apply firstn_le_length.
Qed.
End Pagination.

(** *** The records a filter selects *)

Lemma matching_sorted (s h : string) (ds : Datastore) :
  Kind.well_formed (request_log_lines ds) ->
  StronglySorted key_lt (matching s h ds).
Proof.
  intros Hwf. apply well_formed_key_lt in Hwf. unfold matching.
  destruct (String.eqb h "all"); now apply StronglySorted_filter.
Qed.

Lemma matching_In (s h k : string) (r : RequestLogLine) (ds : Datastore) :
  In (k, r) (matching s h ds) <->
  In (k, r) (request_log_lines ds)
  /\ service_name r = s /\ (h = "all" \/ host r = h).
Proof.
  unfold matching, query_service, query_service_host.
  destruct (String.eqb_spec h "all") as [-> | Hne];
    rewrite filter_In; simpl.
  - rewrite String.eqb_eq. intuition.
  - rewrite andb_true_iff, !String.eqb_eq. intuition.
Qed.



(** *** Uploads write time-keyed records *)

Lemma In_put {V} (id k : string) (v r : V) (l : Kind.t V) :
  In (k, r) (Kind.put id v l) -> (k, r) = (id, v) \/ In (k, r) l.
Proof.
  induction l as [| [id' v'] rest IH]; simpl.
  - intros [E | []]. now left.
  - destruct (String.compare id id'); simpl.
    + intros [E | Hin]; auto.
    + intros [E | Hin]; auto.
    + intros [E | Hin]; auto. destruct (IH Hin); auto.
Qed.

Lemma get_by_id_In {V} (id : string) (v : V) (l : Kind.t V) :
  Kind.get_by_id id l = Some v -> In (id, v) l.
Proof.
  induction l as [| [id' v'] rest IH]; simpl; [discriminate |].
  destruct (String.eqb_spec id id') as [-> | _].
  - intros [= ->]. now left.
  - intros Hg. right. now apply IH.
Qed.






Example two_uploads_newest_first :
  @paginate tagged_codec 3 true [] "s1" "h1" "" (uploaded two_uploads)
  = Some [[ {| service_name := "s1"; host := "h1";
               app_logs := [{| message := "ready"; level := 1;
                               timestamp := 2000 |}] |};
            {| service_name := "s1"; host := "h1";
               app_logs := [{| message := "boot"; level := 1;
                               timestamp := 1000 |}] |} ]].
Proof. vm_compute. reflexivity. Qed.


(** * Further properties of the handlers *)

(** ** Uploads only append *)

Lemma grows_into_refl (ds : Datastore) : grows_into ds ds.
Proof.
  intros key. split.
  - exists []. now rewrite app_nil_r.
  - intros r Hr. exists r. auto.
Qed.

Lemma grows_into_trans (a b c : Datastore) :
  grows_into a b -> grows_into b c -> grows_into a c.
Proof.
  intros Hab Hbc key.
  destruct (Hab key) as [[add1 H1] O1]. destruct (Hbc key) as [[add2 H2] O2].
  split.
  - exists (add1 ++ add2)%list. now rewrite H2, H1, app_assoc.
  - intros r Hr. destruct (O1 r Hr) as (r1 & G1 & S1 & T1).
    destruct (O2 r1 G1) as (r2 & G2 & S2 & T2).
    exists r2. repeat split; congruence.
Qed.

Lemma grows_into_same_logs (a b : Datastore) :
  request_log_lines b = request_log_lines a -> grows_into a b.
Proof.
  intros E key. unfold stored_logs. rewrite E. split.
  - exists []. now rewrite app_nil_r.
  - intros r Hr. exists r. auto.
Qed.

Lemma add_log_line_grows (s h : string) (d : LogLineDict) (ds : Datastore) :
  grows_into ds (exec (add_log_line s h d) ds).
Proof.
  unfold exec, add_log_line, bind, gets, lift.
  destruct (python_int (ld_timestamp d)) as [e | t]; simpl;
    [apply grows_into_refl |].
  destruct (fromtimestamp t) as [e | stamp]; simpl; [apply grows_into_refl |].
  intros key. unfold stored_logs. simpl.
  destruct (String.eqb_spec (key_name s h t) key) as [<- | Hne].
  - rewrite KindFacts.get_by_id_put_same. simpl.
    destruct (Kind.get_by_id (key_name s h t) (request_log_lines ds)) as [r0 |].
    + split; [eexists; reflexivity |].
      intros r [= <-]. eexists. split; [reflexivity |]. auto.
    + split; [eexists; reflexivity |]. discriminate.
  - rewrite KindFacts.get_by_id_put_other by assumption. split.
    + exists []. now rewrite app_nil_r.
    + intros r Hr. exists r. auto.
Qed.

Lemma for_each_add_log_line_grows (s h : string) (ls : list LogLineDict) :
  forall ds, grows_into ds (exec (for_each ls (add_log_line s h)) ds).
Proof.
  induction ls as [| d ls IH]; intros ds; simpl.
  - apply grows_into_refl.
  - pose proof (add_log_line_grows s h d ds) as Hstep.
    unfold exec, bind in *.
    destruct (add_log_line s h d ds) as [[e | []] ds']; simpl in *;
      [exact Hstep |].
    eapply grows_into_trans; [exact Hstep | apply IH].
Qed.

(** X1: an upload never removes or rewrites stored log lines: under every
    key, the log lines after the upload are the former ones followed by the
    added ones, and a record that existed is still there with the service
    and host it had. *)
Theorem upload_is_append_only (data : UploadData) (ds : Datastore) :
  grows_into ds (exec (LogUploadPage_post data) ds).
Proof.
  unfold LogUploadPage_post.
  destruct (register_host_returns (data_service_name data) (data_host data) ds)
    as [Hres Hlogs].
  unfold result, exec, bind in *.
  destruct (register_host (data_service_name data) (data_host data) ds)
    as [res ds'].
  simpl in *. subst res.
  eapply grows_into_trans; [apply grows_into_same_logs; exact Hlogs |].
  apply for_each_add_log_line_grows.
Qed.

(** ** Uploads touch only the keys of their lines *)

Lemma add_log_line_other_key (s h k : string) (d : LogLineDict)
  (ds : Datastore) :
  (forall t, python_int (ld_timestamp d) = inr t -> key_name s h t <> k) ->
  Kind.get_by_id k (request_log_lines (exec (add_log_line s h d) ds))
  = Kind.get_by_id k (request_log_lines ds).
Proof.
  intros Hk. unfold exec, add_log_line, bind, gets, lift.
  destruct (python_int (ld_timestamp d)) as [e | t]; simpl; [reflexivity |].
  destruct (fromtimestamp t) as [e | stamp]; simpl; [reflexivity |].
  apply KindFacts.get_by_id_put_other. now apply Hk.
Qed.

(** X2: an upload leaves alone every record whose key is not the key of one
    of its lines. *)
Theorem upload_leaves_other_keys (data : UploadData) (k : string)
  (ds : Datastore) :
  Forall (fun d => forall t, python_int (ld_timestamp d) = inr t ->
                     key_name (data_service_name data) (data_host data) t <> k)
    (data_logs data) ->
  Kind.get_by_id k (request_log_lines (exec (LogUploadPage_post data) ds))
  = Kind.get_by_id k (request_log_lines ds).
Proof.
  intros Hall. unfold LogUploadPage_post.
  destruct (register_host_returns (data_service_name data) (data_host data) ds)
    as [Hres Hlogs].
  unfold result, exec, bind in *.
  destruct (register_host (data_service_name data) (data_host data) ds)
    as [res ds'].
  simpl in *. subst res. rewrite <- Hlogs. clear Hlogs.
  revert ds'. induction Hall as [| d ls Hd _ IH]; intros ds'; simpl;
    [reflexivity |].
  pose proof (add_log_line_other_key _ _ k d ds' Hd) as Hstep.
  unfold exec, bind in *.
  destruct (add_log_line (data_service_name data) (data_host data) d ds')
    as [[e | []] ds'']; simpl in *; [exact Hstep |].
  now rewrite IH.
Qed.

Lemma upload_leaves_other_keys_witness :
  Kind.get_by_id (key_name "s1" "h1" 1000)
    (request_log_lines
       (exec (LogUploadPage_post (one_line_upload "s1" "h1" (JInt 2000) "ready" 1))
          (uploaded two_uploads)))
  = Kind.get_by_id (key_name "s1" "h1" 1000)
      (request_log_lines (uploaded two_uploads)).
Proof.
  apply (upload_leaves_other_keys
           (one_line_upload "s1" "h1" (JInt 2000) "ready" 1)).
  apply Forall_cons; [| apply Forall_nil].
  intros t [= <-]. vm_compute. discriminate.
Defined.

(** ** A line that raises ends the upload *)

Lemma for_each_app {St A} (xs ys : list A) (body : A -> Handler St unit)
  (st : St) :
  for_each (xs ++ ys) body st =
  match for_each xs body st with
  | (inl e, st') => (inl e, st')
  | (inr _, st') => for_each ys body st'
  end.
Proof.
  revert st. induction xs as [| x xs IH]; intros st; simpl; [reflexivity |].
  unfold bind. destruct (body x st) as [[e | u] st']; [reflexivity | apply IH].
Qed.

Lemma add_log_line_raises (s h : string) (d : LogLineDict) (ds : Datastore) :
  line_raises d = true -> exists e, add_log_line s h d ds = (inl e, ds).
Proof.
  unfold line_raises, add_log_line, bind, gets, lift.
  destruct (python_int (ld_timestamp d)) as [e | t]; simpl.
  - intros _. now exists e.
  - destruct (fromtimestamp t) as [e | stamp]; simpl; [| discriminate].
    intros _. now exists e.
Qed.

(** X3: when a log line raises ([int] fails on its timestamp or the time is
    outside [datetime]), the upload raises too and stores exactly what the
    lines before it store: the lines before are kept, the line and all lines
    after it are lost. *)
Theorem raising_line_ends_upload (s h : string)
  (before after : list LogLineDict) (bad : LogLineDict) (ds : Datastore) :
  line_raises bad = true ->
  exec (LogUploadPage_post (upload_of s h (before ++ bad :: after))) ds
  = exec (LogUploadPage_post (upload_of s h before)) ds
  /\ exists e,
       result (LogUploadPage_post (upload_of s h (before ++ bad :: after))) ds
       = inl e.
Proof.
  intros Hbad. unfold result, exec, LogUploadPage_post, upload_of, bind.
  simpl.
  destruct (register_host s h ds) as [[e | []] ds']; simpl.
  - split; [reflexivity | now exists e].
  - rewrite for_each_app.
    destruct (for_each before (add_log_line s h) ds') as [[e | []] ds''];
      simpl.
    + split; [reflexivity | now exists e].
    + destruct (add_log_line_raises s h bad ds'' Hbad) as [e He].
      unfold bind. rewrite He. simpl. split; [reflexivity | now exists e].
Qed.

Lemma raising_line_ends_upload_witness :
  exec (LogUploadPage_post
          (upload_of "s1" "h1"
             ([{| ld_timestamp := JInt 1000; ld_message := "boot"; ld_level := 1 |}]
              ++ {| ld_timestamp := JNaN; ld_message := "lost"; ld_level := 1 |}
              :: [{| ld_timestamp := JInt 2000; ld_message := "late";
                     ld_level := 1 |}])))
    empty_datastore
  = exec (LogUploadPage_post
            (upload_of "s1" "h1"
               [{| ld_timestamp := JInt 1000; ld_message := "boot";
                   ld_level := 1 |}]))
      empty_datastore.
Proof.
  apply (raising_line_ends_upload "s1" "h1"). reflexivity.
Defined.

(** ** The registry of services and hosts *)

Lemma list_hosts_register_other (s s' h : string) (ds : Datastore) :
  s <> s' ->
  list_hosts s' (exec (register_host s h) ds) = list_hosts s' ds.
Proof.
  intros Hne. rewrite register_host_exec. unfold list_hosts.
  destruct (Kind.get_by_id s (logged_services ds)) as [svc |];
    [destruct (host_in h (hosts svc)) |]; simpl;
    try rewrite KindFacts.get_by_id_put_other by assumption; reflexivity.
Qed.

Lemma list_hosts_register_same (s h x : string) (ds : Datastore) :
  In x (list_hosts s (exec (register_host s h) ds))
  <-> x = h \/ In x (list_hosts s ds).
Proof.
  rewrite register_host_hosts.
  destruct (host_in h (list_hosts s ds)) eqn:Hin.
  - apply host_in_In in Hin. split; [auto | intros [-> | Hx]; assumption].
  - rewrite in_app_iff. simpl. intuition.
Qed.

(** X4: registering a host, for a service name and host the Datastore takes,
    is a union on the hosts of its service and nothing else: afterwards the
    service has the host and the hosts it had, and every other service has
    the hosts it had, in the same order. *)
Theorem register_host_is_union (ds : Datastore) (s h : string) :
  storable_host s h ->
  (forall x,
      In x (list_hosts s (exec (register_host s h) ds))
      <-> x = h \/ In x (list_hosts s ds))
  /\ (forall s', s <> s' ->
        list_hosts s' (exec (register_host s h) ds) = list_hosts s' ds)
  /\ request_log_lines (exec (register_host s h) ds) = request_log_lines ds.
Proof.
  intros _.
  split; [intros x; apply list_hosts_register_same |].
  split; [intros s'; apply list_hosts_register_other |].
  apply register_host_returns.
Qed.

Lemma register_host_is_union_witness :
  In "c" (list_hosts "s" (exec (register_host "s" "c") (uploaded two_hosts)))
  /\ In "a" (list_hosts "s" (exec (register_host "s" "c") (uploaded two_hosts))).
Proof.
  destruct (register_host_is_union (uploaded two_hosts) "s" "c") as [Hin _].
  - storable.
  - split; apply Hin; [now left | right].
    vm_compute. left. reflexivity.
Defined.

(** X5: an upload without log lines, from a service and host the Datastore
    takes, still registers its host: it returns normally, stores no record,
    and the host is among the hosts of the service afterwards. *)
Theorem empty_upload_registers_host (s h : string) (ds : Datastore) :
  storable_host s h ->
  result (LogUploadPage_post (upload_of s h [])) ds = inr tt
  /\ request_log_lines (exec (LogUploadPage_post (upload_of s h [])) ds)
     = request_log_lines ds
  /\ In h (list_hosts s (exec (LogUploadPage_post (upload_of s h [])) ds)).
Proof.
  intros _.
  destruct (register_host_returns s h ds) as [Hres Hlogs].
  assert (Hin : In h (list_hosts s (exec (register_host s h) ds)))
    by (apply list_hosts_register_same; now left).
  unfold result, exec, LogUploadPage_post, upload_of, bind in *. simpl.
  destruct (register_host s h ds) as [res ds']. simpl in *. subst res.
  simpl. auto.
Qed.

Lemma empty_upload_registers_host_witness :
  result (LogUploadPage_post (upload_of "s1" "h1" [])) empty_datastore = inr tt
  /\ request_log_lines
       (exec (LogUploadPage_post (upload_of "s1" "h1" [])) empty_datastore)
     = request_log_lines empty_datastore
  /\ In "h1"
       (list_hosts "s1"
          (exec (LogUploadPage_post (upload_of "s1" "h1" [])) empty_datastore)).
Proof.
  apply (empty_upload_registers_host "s1" "h1" empty_datastore). storable.
Defined.

Lemma list_hosts_same_registry (s : string) (a b : Datastore) :
  logged_services a = logged_services b -> list_hosts s a = list_hosts s b.
Proof. unfold list_hosts. now intros ->. Qed.

Lemma register_host_NoDup (s s' h : string) (ds : Datastore) :
  NoDup (list_hosts s' ds) ->
  NoDup (list_hosts s' (exec (register_host s h) ds)).
Proof.
  intros Hnd. destruct (String.eqb_spec s s') as [<- | Hne].
  - rewrite register_host_hosts.
    destruct (host_in h (list_hosts s ds)) eqn:Hin; [exact Hnd |].
    apply NoDup_app; [exact Hnd | repeat constructor; intros [] |].
    intros x Hx [<- | []]. apply host_in_In in Hx. congruence.
  - now rewrite list_hosts_register_other.
Qed.

Lemma register_host_registry_well_formed (s h : string) (ds : Datastore) :
  Kind.well_formed (logged_services ds) ->
  Kind.well_formed (logged_services (exec (register_host s h) ds)).
Proof.
  intros Hwf. rewrite register_host_exec.
  destruct (Kind.get_by_id s (logged_services ds)) as [svc |];
    [destruct (host_in h (hosts svc)) |]; simpl;
    try apply KindFacts.put_well_formed; assumption.
Qed.

(** X6: whatever is uploaded, the registry stays a set: no service lists a
    host twice, and the registry holds one entity per service. *)
Theorem uploaded_registry_has_no_duplicates (us : list UploadData) (s : string) :
  NoDup (list_hosts s (uploaded us))
  /\ Kind.well_formed (logged_services (uploaded us))
  /\ NoDup (Kind.keys (logged_services (uploaded us))).
Proof.
  unfold uploaded.
  assert (G : forall ds,
             NoDup (list_hosts s ds) ->
             Kind.well_formed (logged_services ds) ->
             let ds' := fold_left (fun ds u => exec (LogUploadPage_post u) ds) us ds in
             NoDup (list_hosts s ds')
             /\ Kind.well_formed (logged_services ds')).
  { induction us as [| u us IH]; intros ds Hnd Hwf; simpl; [auto |].
    apply IH.
    - rewrite (list_hosts_same_registry s _ _ (post_registry u ds)).
      now apply register_host_NoDup.
    - rewrite post_registry. now apply register_host_registry_well_formed. }
  destruct (G empty_datastore) as [Hnd Hwf].
  - constructor.
  - apply KindFacts.well_formed_empty.
  - split; [exact Hnd |]. split; [exact Hwf |].
    now apply KindFacts.well_formed_NoDup.
Qed.

(** ** Records and the registry agree *)

Lemma hosts_registered_register (s h : string) (ds : Datastore) :
  hosts_registered ds ->
  hosts_registered (exec (register_host s h) ds)
  /\ In h (list_hosts s (exec (register_host s h) ds)).
Proof.
  intros Hreg. split; [| apply list_hosts_register_same; now left].
  intros k r Hin.
  destruct (register_host_returns s h ds) as [_ Hlogs].
  rewrite Hlogs in Hin. specialize (Hreg k r Hin).
  destruct (String.eqb_spec s (service_name r)) as [E | Hne].
  - rewrite <- E in *. apply list_hosts_register_same. now right.
  - now rewrite list_hosts_register_other.
Qed.

Lemma list_hosts_set_request_log_lines (s : string)
  (f : Kind.t RequestLogLine -> Kind.t RequestLogLine) (ds : Datastore) :
  list_hosts s (set_request_log_lines f ds) = list_hosts s ds.
Proof. reflexivity. Qed.

Lemma hosts_registered_add_log_line (s h : string) (d : LogLineDict)
  (ds : Datastore) :
  hosts_registered ds -> In h (list_hosts s ds) ->
  hosts_registered (exec (add_log_line s h d) ds)
  /\ In h (list_hosts s (exec (add_log_line s h d) ds)).
Proof.
  intros Hreg Hh. unfold exec, add_log_line, bind, gets, lift.
  destruct (python_int (ld_timestamp d)) as [e | t]; simpl; [auto |].
  destruct (fromtimestamp t) as [e | stamp]; simpl; [auto |].
  split; [| exact Hh].
  intros k r Hin. simpl in Hin.
  rewrite list_hosts_set_request_log_lines.
  apply In_put in Hin as [E | Hin]; [| exact (Hreg k r Hin)].
  injection E as _ ->. simpl.
  destruct (Kind.get_by_id (key_name s h t) (request_log_lines ds))
    as [r0 |] eqn:G; simpl; [| exact Hh].
  apply get_by_id_In in G. exact (Hreg _ _ G).
Qed.

Lemma hosts_registered_post (u : UploadData) (ds : Datastore) :
  hosts_registered ds -> hosts_registered (exec (LogUploadPage_post u) ds).
Proof.
  intros Hreg. unfold LogUploadPage_post.
  destruct (hosts_registered_register (data_service_name u) (data_host u) ds Hreg)
    as [Hreg' Hh].
  destruct (register_host_returns (data_service_name u) (data_host u) ds)
    as [Hres _].
  unfold result, exec, bind in *.
  destruct (register_host (data_service_name u) (data_host u) ds) as [res ds'].
  simpl in *. subst res.
  revert ds' Hreg' Hh.
  induction (data_logs u) as [| d ls IH]; intros ds' Hreg' Hh; simpl;
    [exact Hreg' |].
  destruct (hosts_registered_add_log_line
              (data_service_name u) (data_host u) d ds' Hreg' Hh) as [Hr Hi].
  unfold exec, bind in *.
  destruct (add_log_line (data_service_name u) (data_host u) d ds')
    as [[e | []] ds'']; simpl in *; [exact Hr | now apply IH].
Qed.

(** X7: in a Datastore written by uploads, every stored record names a host
    that is registered for the record's service, so every host with logs is
    on its service's host list. *)
Theorem uploaded_hosts_are_registered (us : list UploadData) :
  hosts_registered (uploaded us).
Proof.
  unfold uploaded.
  assert (G : forall ds,
             hosts_registered ds ->
             hosts_registered
               (fold_left (fun ds u => exec (LogUploadPage_post u) ds) us ds)).
  { induction us as [| u us IH]; intros ds Hreg; simpl; [exact Hreg |].
    apply IH. now apply hosts_registered_post. }
  apply G. intros k r [].
Qed.

Lemma uploaded_hosts_are_registered_witness :
  In "b" (list_hosts "s" (uploaded two_hosts)).
Proof.
  apply (uploaded_hosts_are_registered two_hosts
           (key_name "s" "b" 2000)
           {| service_name := "s"; host := "b";
              app_logs := [{| message := "new"; level := 1;
                              timestamp := 2000 |}] |}).
  vm_compute. right. left. reflexivity.
Defined.

(** ** Keys and timestamps *)

Lemma encode_injective (t1 t2 : Z) :
  full_width t1 -> full_width t2 -> encode t1 = encode t2 -> t1 = t2.
Proof.
  intros F1 F2 E.
  pose proof (encode_compare t1 t2 F1 F2) as C.
  rewrite E, string_compare_refl in C.
  symmetry in C. apply Z.compare_eq in C. now symmetry.
Qed.

(** X8: for one service and host, timestamps with a full-width fragment get
    different record keys unless they are the same second; so each second
    has its own record. *)
Theorem key_name_injective_in_time (s h : string) (t1 t2 : Z) :
  full_width t1 -> full_width t2 ->
  key_name s h t1 = key_name s h t2 -> t1 = t2.
Proof.
  intros F1 F2 E. apply encode_injective; try assumption.
  unfold key_name in E.
  assert (C : String.compare (encode t1) (encode t2) = Eq).
  { rewrite <- (string_compare_app h), <- (string_compare_app s), E.
    apply string_compare_refl. }
  now apply string_compare_eq in C.
Qed.

Lemma key_name_injective_in_time_witness : 1000 = 1000.
Proof.
  apply (key_name_injective_in_time "s1" "h1" 1000 1000);
    [unfold full_width; lia | unfold full_width; lia | reflexivity].
Defined.

(** ** The viewer: what a page holds *)

Lemma after_cursor_incl (cur : option Cursor) (m : Kind.t RequestLogLine)
  (e : string * RequestLogLine) :
  In e (after_cursor cur m) -> In e m.
Proof.
  destruct cur as [c |]; simpl; [| trivial].
  intros Hin. now apply filter_In in Hin.
Qed.

Lemma firstn_In {A} (n : nat) (l : list A) (x : A) :
  In x (firstn n l) -> In x l.
Proof.
  intros Hin. rewrite <- (firstn_skipn n l). apply in_or_app. now left.
Qed.

(** What the handler does with its cursor parameter. *)
Lemma get_cases `{CursorCodec}
  (is_cloud_admin : bool) (apps_user_is_admin_on : list string)
  (s h c : string) (ds : Datastore) :
  LogServiceHostPage_get is_cloud_admin apps_user_is_admin_on s h c ds
  = (inl BadValueError, ds)
  \/ exists cur page,
       LogServiceHostPage_get is_cloud_admin apps_user_is_admin_on s h c ds
       = (inr page, ds)
       /\ query page =
            map snd (firstn LOGS_PER_PAGE (after_cursor cur (matching s h ds)))
       /\ is_more page =
            (LOGS_PER_PAGE
             <? List.length (after_cursor cur (matching s h ds)))%nat.
Proof.
  unfold LogServiceHostPage_get, matching, bind, gets, ret.
  destruct (negb (String.eqb c "") && negb (String.eqb c "None")); simpl.
  - destruct (from_urlsafe c) as [cur |]; simpl; [| now left].
    right. exists (Some cur).
    destruct (String.eqb h "all"); eexists; repeat split.
  - right. exists None.
    destruct (String.eqb h "all"); eexists; repeat split.
Qed.

(** X9: whatever the cursor parameter, a page the viewer renders holds at
    most 20 records, each of them a stored record of the requested service
    (and of the requested host unless the host is "all"), and the request
    leaves the Datastore as it was, also when it raises. *)
Theorem viewer_page_is_sound `{CursorCodec}
  (is_cloud_admin : bool) (apps_user_is_admin_on : list string)
  (s h c : string) (ds : Datastore) :
  exec (LogServiceHostPage_get is_cloud_admin apps_user_is_admin_on s h c) ds
  = ds
  /\ forall page,
       result (LogServiceHostPage_get is_cloud_admin apps_user_is_admin_on s h c)
         ds = inr page ->
       (List.length (query page) <= LOGS_PER_PAGE)%nat
       /\ forall r, In r (query page) ->
            service_name r = s /\ (h = "all" \/ host r = h)
            /\ exists k, In (k, r) (request_log_lines ds).
Proof.
  unfold exec, result.
  destruct (get_cases is_cloud_admin apps_user_is_admin_on s h c ds)
    as [-> | (cur & pg & -> & Hq & _)]; cbn [fst snd].
  - split; [reflexivity | discriminate].
  - split; [reflexivity |]. intros page [= <-]. rewrite Hq. split.
    + rewrite length_map. apply firstn_le_length.
    + intros r Hr. apply in_map_iff in Hr as ([k r'] & <- & Hin).
      cbn [snd].
      apply firstn_In, after_cursor_incl, matching_In in Hin
        as (Hin & Hs & Hh).
      split; [exact Hs |]. split; [exact Hh |]. now exists k.
Qed.

Lemma viewer_page_is_sound_witness :
  exec (@LogServiceHostPage_get tagged_codec true [] "s" "b" "")
    (uploaded two_hosts) = uploaded two_hosts
  /\ service_name
       {| service_name := "s"; host := "b";
          app_logs := [{| message := "new"; level := 1;
                          timestamp := 2000 |}] |} = "s".
Proof.
  destruct (@viewer_page_is_sound tagged_codec true [] "s" "b" ""
              (uploaded two_hosts)) as [Hsame Hpage].
  split; [exact Hsame |].
  destruct (Hpage
              {| redirected := false; page_service_name := "s";
                 page_host := "b";
                 query := [ {| service_name := "s"; host := "b";
                               app_logs := [{| message := "new"; level := 1;
                                               timestamp := 2000 |}] |} ];
                 next_cursor := None; is_more := false |} eq_refl)
    as [_ Hrec].
  now destruct (Hrec _ (or_introl eq_refl)).
Defined.

(** X10: the records the viewer returns do not depend on the caller's
    rights.  The handler marks the response as redirected for a caller who
    is neither the cloud administrator nor an administrator of the service,
    and then queries and renders as for anyone else: two callers get the
    same result apart from that mark. *)
Theorem viewer_ignores_rights `{CursorCodec}
  (admin1 admin2 : bool) (apps1 apps2 : list string)
  (s h c : string) (ds : Datastore) :
  match result (LogServiceHostPage_get admin1 apps1 s h c) ds,
        result (LogServiceHostPage_get admin2 apps2 s h c) ds with
  | inr p1, inr p2 =>
      query p1 = query p2 /\ next_cursor p1 = next_cursor p2
      /\ is_more p1 = is_more p2
      /\ redirected p1 = negb admin1 && negb (str_in s apps1)
      /\ redirected p2 = negb admin2 && negb (str_in s apps2)
  | inl e1, inl e2 => e1 = e2
  | _, _ => False
  end.
Proof.
  unfold result, LogServiceHostPage_get, matching, bind, gets, ret.
  destruct (negb (String.eqb c "") && negb (String.eqb c "None")); simpl.
  - destruct (from_urlsafe c) as [cur |]; simpl; [| reflexivity].
    destruct (String.eqb h "all"); simpl; repeat split.
  - destruct (String.eqb h "all"); simpl; repeat split.
Qed.

Example stranger_reads_logs :
  option_map (fun p => (redirected p, List.length (query p)))
    (match @LogServiceHostPage_get tagged_codec false [] "s" "all" ""
             (uploaded two_hosts) with
     | (inr p, _) => Some p
     | (inl _, _) => None
     end) = Some (true, 2%nat).
Proof. vm_compute. reflexivity. Qed.



(** ** From an upload to the viewer *)

(** X12: a log line uploaded under a key that holds no record yet is
    returned by the viewer: following the pages for the line's service and
    host from no cursor yields, among the records, the new record of that
    service and host with the line as its only log line, stamped with the
    whole second.  The line is one the Datastore can hold (key names and
    host of at most 500 bytes, a 64-bit level). *)
Theorem uploaded_line_is_viewed `{CursorCodec}
  (is_cloud_admin : bool) (apps_user_is_admin_on : list string)
  (s h : string) (x : JNumber) (t : Z) (m : string) (l : Z) (ds : Datastore) :
  Kind.well_formed (request_log_lines ds) ->
  python_int x = inr t ->
  DATETIME_MIN <= t <= DATETIME_MAX ->
  storable_line s h t l ->
  Kind.get_by_id (key_name s h t) (request_log_lines ds) = None ->
  let ds' := exec (LogUploadPage_post (one_line_upload s h x m l)) ds in
  exists pages,
    paginate (S (List.length (matching s h ds')))
      is_cloud_admin apps_user_is_admin_on s h "" ds' = Some pages
    /\ In {| service_name := s; host := h;
             app_logs := [{| message := m; level := l; timestamp := t |}] |}
         (List.concat pages).
Proof.
  intros Hwf Hint Hrange _ Hfresh ds'.
  destruct (post_one_line s h x m l t ds Hint Hrange)
    as (r & _ & Hlogs & Happ & Hnew & _).
  fold ds' in Hlogs.
  destruct (Hnew Hfresh) as [Hs Hh].
  unfold stored_logs in Happ. rewrite Hfresh in Happ. simpl in Happ.
  assert (Hr : r = {| service_name := s; host := h;
                      app_logs := [{| message := m; level := l;
                                      timestamp := t |}] |}).
  { destruct r; simpl in *; congruence. }
  assert (Hwf' : Kind.well_formed (request_log_lines ds')).
  { rewrite Hlogs. now apply KindFacts.put_well_formed. }
  assert (Hin : In (key_name s h t, r) (matching s h ds')).
  { apply matching_In. split; [| split; [exact Hs | now right]].
    apply get_by_id_In. rewrite Hlogs. apply KindFacts.get_by_id_put_same. }
  destruct (pages_from_cursor is_cloud_admin apps_user_is_admin_on s h ds'
              (S (List.length (matching s h ds'))) None
              (matching_sorted s h ds' Hwf'))
    as (pages & Hrun & Hcat & _); [simpl; lia |].
  change (param_of None) with "" in Hrun.
  change (after_cursor None (matching s h ds')) with (matching s h ds') in Hcat.
  exists pages. split; [exact Hrun |].
  rewrite Hcat, <- Hr. apply in_map_iff. now exists (key_name s h t, r).
Qed.

Lemma uploaded_line_is_viewed_witness :
  exists pages,
    @paginate tagged_codec
      (S (List.length
            (matching "s1" "h1"
               (exec (LogUploadPage_post
                        (one_line_upload "s1" "h1" (JInt 1000) "boot" 1))
                  empty_datastore))))
      true [] "s1" "h1" ""
      (exec (LogUploadPage_post (one_line_upload "s1" "h1" (JInt 1000) "boot" 1))
         empty_datastore) = Some pages
    /\ In {| service_name := "s1"; host := "h1";
             app_logs := [{| message := "boot"; level := 1;
                             timestamp := 1000 |}] |}
         (List.concat pages).
Proof.
  apply (@uploaded_line_is_viewed tagged_codec true [] "s1" "h1" (JInt 1000)
           1000 "boot" 1 empty_datastore).
  - apply KindFacts.well_formed_empty.
  - reflexivity.
  - unfold DATETIME_MIN, DATETIME_MAX. lia.
  - storable.
  - reflexivity.
Defined.

(** ** Refresh tasks when the queue refuses *)

(** X13: a task queue that refuses a task never fails the upload page: for
    every behaviour of the queue, a successful upload is reported as
    successful, the tasks added are none, the immediate one, or both in that
    order, and an exception is written to the log exactly when fewer than
    two were added. *)
Theorem upload_survives_refused_refresh (refuses : Task -> list Task -> bool)
  (msg : string) (sv : Server) :
  truthy msg = true ->
  result (AppUploadPage_post refuses true true (inr msg)) sv
  = inr {| error_message := ""; success_message := msg |}
  /\ let sv' := exec (AppUploadPage_post refuses true true (inr msg)) sv in
     (taskqueue sv' = taskqueue sv
      /\ logged sv' = (logged sv ++ [TransientError])%list)
     \/ (taskqueue sv' = (taskqueue sv ++ [refresh_now])%list
         /\ logged sv' = (logged sv ++ [TransientError])%list)
     \/ (taskqueue sv' = (taskqueue sv ++ [refresh_now; refresh_later])%list
         /\ logged sv' = logged sv).
Proof.
  intros Hmsg.
  unfold result, exec, AppUploadPage_post, bind, ret. simpl. rewrite Hmsg.
  unfold enqueue_refresh, try_except, bind, taskqueue_add, logging_exception,
    modify.
  fold refresh_now. fold refresh_later.
  destruct (refuses refresh_now (taskqueue sv)); simpl.
  - split; [reflexivity |]. left. auto.
  - destruct (refuses refresh_later (taskqueue sv ++ [refresh_now])%list);
      simpl.
    + split; [reflexivity |]. right. left. auto.
    + split; [reflexivity |]. right. right. rewrite <- app_assoc. auto.
Qed.

Lemma upload_survives_refused_refresh_witness :
  result (AppUploadPage_post (fun _ _ => true) true true (inr "uploaded"))
    empty_server
  = inr {| error_message := ""; success_message := "uploaded" |}.
Proof.
  apply (upload_survives_refused_refresh (fun _ _ => true) "uploaded"
           empty_server).
  reflexivity.
Defined.

(** X14: a deletion puts a task on the queue or a line in the log only when
    the caller is the cloud administrator or owns the application and the
    helper returned: otherwise the server state is left as it was. *)
Theorem delete_acts_only_when_authorised
  (refuses : Task -> list Task -> bool) (appname : string)
  (is_user_cloud_admin : bool) (owned_apps : list string)
  (delete_app : Exn + string) (sv : Server) :
  exec (AppDeletePage_post refuses appname is_user_cloud_admin owned_apps
          delete_app) sv <> sv ->
  (is_user_cloud_admin = true \/ In appname owned_apps)
  /\ exists msg, delete_app = inr msg.
Proof.
  unfold exec, AppDeletePage_post, bind, ret, lift.
  destruct (is_user_cloud_admin || str_in appname owned_apps) eqn:Hauth.
  - intros Hch. split.
    + apply orb_true_iff in Hauth as [-> | Hin]; [now left | right].
      unfold str_in in Hin. apply existsb_exists in Hin as (x & Hx & E).
      apply String.eqb_eq in E. now subst.
    + destruct delete_app as [e | msg]; [| now exists msg].
      simpl in Hch. now contradiction Hch.
  - simpl. intros Hch. now contradiction Hch.
Qed.

Lemma delete_acts_only_when_authorised_witness :
  (true = true \/ In "guestbook" [])
  /\ exists msg, @inr Exn string "deleted" = inr msg.
Proof.
  apply (delete_acts_only_when_authorised accepts_all "guestbook" true []
           (inr "deleted") empty_server).
  vm_compute. discriminate.
Defined.

(** X15: a permission change by the cloud administrator asks for one
    refresh only: the page is rendered whatever the queue does, the tasks
    added are none or the immediate refresh, never the delayed one; for
    anyone else the server state is untouched. *)
Theorem authorize_enqueues_one_refresh (refuses : Task -> list Task -> bool)
  (is_user_cloud_admin : bool) (update_message : string) (sv : Server) :
  let sv' :=
    exec (AuthorizePage_post refuses is_user_cloud_admin update_message) sv in
  (exists values,
      result (AuthorizePage_post refuses is_user_cloud_admin update_message) sv
      = inr values)
  /\ (taskqueue sv' = taskqueue sv
      \/ taskqueue sv' = (taskqueue sv ++ [refresh_now])%list)
  /\ (refuses refresh_now (taskqueue sv) = false ->
      is_user_cloud_admin = true ->
      taskqueue sv' = (taskqueue sv ++ [refresh_now])%list
      /\ logged sv' = logged sv)
  /\ (is_user_cloud_admin = false -> sv' = sv).
Proof.
  unfold result, exec, AuthorizePage_post, bind, ret, try_except,
    taskqueue_add, logging_exception, modify.
  fold refresh_now.
  destruct is_user_cloud_admin; simpl.
  - destruct (refuses refresh_now (taskqueue sv)); simpl.
    + split; [eexists; reflexivity |]. split; [now left |].
      split; [discriminate | discriminate].
    + split; [eexists; reflexivity |]. split; [now right |].
      split; [auto | discriminate].
  - split; [eexists; reflexivity |]. split; [now left |].
    split; [discriminate | reflexivity].
Qed.

Lemma authorize_enqueues_one_refresh_witness :
  taskqueue (exec (AuthorizePage_post accepts_all true "Enabling upload_app. ")
               empty_server) = [refresh_now]
  /\ logged (exec (AuthorizePage_post accepts_all true "Enabling upload_app. ")
               empty_server) = [].
Proof.
  apply (authorize_enqueues_one_refresh accepts_all true
           "Enabling upload_app. " empty_server); reflexivity.
Defined.

(** ** The pages that list services and hosts *)

Lemma all_services_fold (k : Kind.t LoggedService) : forall acc,
  NoDup acc ->
  let out :=
    fold_left
      (fun acc entity =>
         if str_in (fst entity) acc then acc else (acc ++ [fst entity])%list)
      k acc in
  NoDup out /\ forall x, In x out <-> In x acc \/ In x (Kind.keys k).
Proof.
  induction k as [| e k IH]; intros acc Hnd; simpl.
  - split; [exact Hnd | intuition].
  - destruct (str_in (fst e) acc) eqn:Hin.
    + destruct (IH acc Hnd) as [Hn Hx]. split; [exact Hn |].
      intros x. rewrite Hx. apply host_in_In in Hin. intuition. subst. auto.
    + destruct (IH (acc ++ [fst e])%list) as [Hn Hx].
      { apply NoDup_app; [exact Hnd | repeat constructor; intros [] |].
        intros x Hxa [<- | []]. apply host_in_In in Hxa.
        unfold host_in, str_in in *. congruence. }
      split; [exact Hn |].
      intros x. rewrite Hx, in_app_iff. simpl. intuition.
Qed.

Lemma main_page_services (is_cloud_admin : bool)
  (apps_user_is_admin_on : list string) (ds : Datastore) :
  exists page,
    LogMainPage_get is_cloud_admin apps_user_is_admin_on ds = (inr page, ds)
    /\ NoDup (main_services page)
    /\ forall x,
         In x (main_services page) <->
         In x (Kind.keys (logged_services ds))
         /\ (is_cloud_admin = true \/ In x apps_user_is_admin_on).
Proof.
  unfold LogMainPage_get, bind, gets, ret. simpl.
  eexists. split; [reflexivity |]. simpl.
  destruct (all_services_fold (logged_services ds) [] (NoDup_nil _))
    as [Hnd Hin].
  fold (all_services (logged_services ds)) in Hnd, Hin.
  split.
  - unfold permitted_services. now apply NoDup_filter.
  - intros x. unfold permitted_services.
    rewrite filter_In, Hin, orb_true_iff. simpl.
    assert (Hs : str_in x apps_user_is_admin_on = true
                 <-> In x apps_user_is_admin_on) by apply host_in_In.
    rewrite Hs. intuition.
Qed.

(** X16: the main log page lists exactly the registered services the caller
    may see, each once: a service is listed if and only if it has a registry
    entity and the caller is the cloud administrator or an administrator of
    it.  The Datastore is left as it was. *)
Theorem main_page_lists_permitted_services (is_cloud_admin : bool)
  (apps_user_is_admin_on : list string) (ds : Datastore) :
  exists page,
    LogMainPage_get is_cloud_admin apps_user_is_admin_on ds = (inr page, ds)
    /\ NoDup (main_services page)
    /\ forall x,
         In x (main_services page) <->
         In x (Kind.keys (logged_services ds))
         /\ (is_cloud_admin = true \/ In x apps_user_is_admin_on).
Proof.
  destruct (main_page_services is_cloud_admin apps_user_is_admin_on ds)
    as (page & Hget & Hnd & Hin).
  exists page. auto.
Qed.

Lemma get_by_id_keys {V} (id : string) (v : V) (k : Kind.t V) :
  Kind.get_by_id id k = Some v -> In id (Kind.keys k).
Proof.
  intros G. apply (in_map fst _ (id, v)). now apply get_by_id_In.
Qed.

(** X17: after an upload from a service and host the Datastore takes,
    whatever log lines it carried and whether or not they raised, the
    service is on the cloud administrator's main log page and the service
    page shows it as existing with the uploading host among its hosts. *)
Theorem uploaded_service_is_listed (data : UploadData) (ds : Datastore)
  (apps_user_is_admin_on : list string) :
  storable_host (data_service_name data) (data_host data) ->
  let ds' := exec (LogUploadPage_post data) ds in
  (exists page,
      LogMainPage_get true apps_user_is_admin_on ds' = (inr page, ds')
      /\ In (data_service_name data) (main_services page))
  /\ (exists page,
        LogServicePage_get true apps_user_is_admin_on (data_service_name data)
          ds' = (inr page, ds')
        /\ service_exists page = true
        /\ In (data_host data) (service_hosts page)).
Proof.
  intros _ ds'.
  assert (Hh : In (data_host data) (list_hosts (data_service_name data) ds')).
  { unfold ds'.
    rewrite (list_hosts_same_registry _ _ _ (post_registry data ds)).
    apply list_hosts_register_same. now left. }
  unfold list_hosts in Hh.
  destruct (Kind.get_by_id (data_service_name data) (logged_services ds'))
    as [svc |] eqn:G; [| destruct Hh].
  split.
  - destruct (main_page_services true apps_user_is_admin_on ds')
      as (page & Hget & _ & Hin).
    exists page. split; [exact Hget |]. apply Hin.
    split; [now apply (get_by_id_keys _ svc) | now left].
  - unfold LogServicePage_get, bind, gets, ret. simpl. rewrite G.
    eexists. split; [reflexivity |]. simpl. auto.
Qed.

Lemma uploaded_service_is_listed_witness :
  exists page,
    LogServicePage_get true []
      "s1" (exec (LogUploadPage_post (upload_of "s1" "h1" [])) empty_datastore)
    = (inr page,
       exec (LogUploadPage_post (upload_of "s1" "h1" [])) empty_datastore)
    /\ service_exists page = true
    /\ In "h1" (service_hosts page).
Proof.
  apply (uploaded_service_is_listed (upload_of "s1" "h1" []) empty_datastore []).
  storable.
Defined.


(** ** The user creation form *)

Lemma string_length_app (a b : string) :
  String.length (a ++ b) = (String.length a + String.length b)%nat.
Proof. induction a as [| c a IH]; simpl; [reflexivity | now rewrite IH]. Qed.

Lemma string_app_assoc (a b c : string) :
  ((a ++ b) ++ c = a ++ (b ++ c))%string.
Proof. induction a as [| x a IH]; simpl; [reflexivity | now rewrite IH]. Qed.

Lemma replace_app (old : ascii) (new a b : string) :
  replace old new (a ++ b) = (replace old new a ++ replace old new b)%string.
Proof.
  induction a as [| c a IH]; simpl; [reflexivity |].
  destruct (Ascii.eqb c old); simpl; rewrite IH;
    [now rewrite string_app_assoc | reflexivity].
Qed.

(** [cgi.escape] works character by character. *)
Lemma cgi_escape_cons (c : ascii) (s : string) :
  cgi_escape (String c s) = (escape_char c ++ cgi_escape s)%string.
Proof.
  unfold cgi_escape, escape_char. simpl.
  destruct (Ascii.eqb_spec c "&") as [-> | Hamp].
  - reflexivity.
  - simpl. destruct (Ascii.eqb_spec c "<") as [-> | Hlt]; simpl.
    + reflexivity.
    + destruct (Ascii.eqb_spec c ">") as [-> | Hgt]; reflexivity.
Qed.

Lemma cgi_escape_injective (a : string) : forall b,
  cgi_escape a = cgi_escape b -> a = b.
Proof.
  induction a as [| x a IH]; intros [| y b] E.
  - reflexivity.
  - rewrite cgi_escape_cons in E. unfold escape_char in E.
    destruct (Ascii.eqb y "&"), (Ascii.eqb y "<"), (Ascii.eqb y ">");
      discriminate.
  - rewrite cgi_escape_cons in E. unfold escape_char in E.
    destruct (Ascii.eqb x "&"), (Ascii.eqb x "<"), (Ascii.eqb x ">");
      discriminate.
  - rewrite !cgi_escape_cons in E. unfold escape_char in E.
    destruct (Ascii.eqb_spec x "&") as [-> | Xa];
      [| destruct (Ascii.eqb_spec x "<") as [-> | Xl];
         [| destruct (Ascii.eqb_spec x ">") as [-> | Xg]]];
      (destruct (Ascii.eqb_spec y "&") as [-> | Ya];
       [| destruct (Ascii.eqb_spec y "<") as [-> | Yl];
          [| destruct (Ascii.eqb_spec y ">") as [-> | Yg]]]);
      simpl in E; try discriminate;
      injection E as E; subst; try congruence;
      f_equal; now apply IH.
Qed.

Lemma cgi_escape_length (s : string) :
  String.length (cgi_escape s) =
  (String.length s + 4 * count_char "&" s + 3 * count_char "<" s
   + 3 * count_char ">" s)%nat.
Proof.
  induction s as [| c s IH]; [reflexivity |].
  rewrite cgi_escape_cons, string_length_app, IH. unfold escape_char.
  cbn [count_char String.length].
  destruct (Ascii.eqb_spec c "&") as [-> | Ha]; [simpl; lia |].
  destruct (Ascii.eqb_spec c "<") as [-> | Hl]; [simpl; lia |].
  destruct (Ascii.eqb_spec c ">") as [-> | Hg]; simpl; lia.
Qed.

(** X19: the confirmation check compares the escaped texts, and escaping
    loses nothing: the form passes it exactly when the confirmation is the
    password as typed. *)
Theorem confirmation_check_is_equality (form : NewUserForm) :
  password_confirmation_error (parse_new_user_post form) = None
  <-> user_password_confirmation form = user_password form.
Proof.
  unfold parse_new_user_post. simpl.
  destruct (String.eqb_spec (cgi_escape (user_password_confirmation form))
              (cgi_escape (user_password form))) as [E | N].
  - split; [intros _; now apply cgi_escape_injective | reflexivity].
  - split; [discriminate | intros E; now rewrite E in N].
Qed.

(** X20: the password length is measured after escaping: the check passes
    exactly when the typed length plus 4 for every ampersand and 3 for every
    angle bracket reaches 6.  So every password of six characters passes, and
    so does a shorter one with such characters in it. *)
Theorem password_check_counts_escapes (form : NewUserForm) :
  password_error (parse_new_user_post form) = None
  <-> (MIN_PASSWORD_LENGTH
       <= String.length (user_password form)
          + 4 * count_char "&" (user_password form)
          + 3 * count_char "<" (user_password form)
          + 3 * count_char ">" (user_password form))%nat.
Proof.
  unfold parse_new_user_post. cbn [password_error].
  rewrite cgi_escape_length.
  destruct (Nat.leb_spec MIN_PASSWORD_LENGTH
              (String.length (user_password form)
               + 4 * count_char "&" (user_password form)
               + 3 * count_char "<" (user_password form)
               + 3 * count_char ">" (user_password form))) as [L | G].
  - split; [intros _; exact L | reflexivity].
  - split; [discriminate | lia].
Qed.

Example short_password_passes :
  password_error
    (parse_new_user_post
       {| user_email := "foo@boo.goo"; user_password := "a&b";
          user_password_confirmation := "a&b" |}) = None.
Proof. reflexivity. Qed.

Lemma error_set_parse (form : NewUserForm) :
  error_set (email_error (parse_new_user_post form))
  || error_set (password_error (parse_new_user_post form))
  || error_set (password_confirmation_error (parse_new_user_post form))
  = false
  <-> email_error (parse_new_user_post form) = None
      /\ password_error (parse_new_user_post form) = None
      /\ password_confirmation_error (parse_new_user_post form) = None.
Proof.
  unfold parse_new_user_post.
  cbn [email_error password_error password_confirmation_error].
  destruct (matches_user_email (cgi_escape (user_email form)));
    destruct (MIN_PASSWORD_LENGTH <=? String.length (cgi_escape (user_password form)))%nat;
    destruct (String.eqb (cgi_escape (user_password_confirmation form))
                (cgi_escape (user_password form)));
    simpl; (split; [intros E | intros (A & B & C)]);
    try discriminate; repeat split.
Qed.

(** X21: a form that fails a check never reaches the helper: whatever the
    helper would do, no user is created and the form is rendered again with
    the escaped fields and the messages of the checks. *)
Theorem invalid_form_never_creates_user
  (create_new_user : string -> string -> Exn + bool) (form : NewUserForm) :
  (email_error (parse_new_user_post form) <> None
   \/ password_error (parse_new_user_post form) <> None
   \/ password_confirmation_error (parse_new_user_post form) <> None) ->
  NewUserPage_post create_new_user form
  = inr (RenderForm
           {| user_email := cgi_escape (user_email form);
              user_password := cgi_escape (user_password form);
              user_password_confirmation :=
                cgi_escape (user_password_confirmation form) |}
           (parse_new_user_post form)).
Proof.
  intros Hbad. unfold NewUserPage_post, process_new_user_post.
  destruct (error_set (email_error (parse_new_user_post form))
            || error_set (password_error (parse_new_user_post form))
            || error_set (password_confirmation_error (parse_new_user_post form)))
    eqn:Herr; [reflexivity |].
  apply error_set_parse in Herr as (A & B & C). intuition.
Qed.

Lemma invalid_form_never_creates_user_witness :
  NewUserPage_post (fun _ _ => inr true)
    {| user_email := "foo"; user_password := "secret";
       user_password_confirmation := "secret" |}
  = inr (RenderForm
           {| user_email := "foo"; user_password := "secret";
              user_password_confirmation := "secret" |}
           {| email_error := Some "Format must be foo@boo.goo.";
              password_error := None;
              password_confirmation_error := None |}).
Proof.
  apply (invalid_form_never_creates_user (fun _ _ => inr true)
           {| user_email := "foo"; user_password := "secret";
              user_password_confirmation := "secret" |}).
  left. discriminate.
Defined.

(** X22: a form that passes the three checks is handed to the helper with
    the escaped email and password, and the response follows the helper:
    a redirect when it returns true; the form again, with no message at all,
    when it returns false; the form with the helper's message on the email
    field when it raises [AppHelperException]. *)
Theorem valid_form_follows_helper
  (create_new_user : string -> string -> Exn + bool) (form : NewUserForm) :
  email_error (parse_new_user_post form) = None ->
  password_error (parse_new_user_post form) = None ->
  password_confirmation_error (parse_new_user_post form) = None ->
  let users :=
    {| user_email := cgi_escape (user_email form);
       user_password := cgi_escape (user_password form);
       user_password_confirmation :=
         cgi_escape (user_password_confirmation form) |} in
  let outcome :=
    create_new_user (cgi_escape (user_email form))
      (cgi_escape (user_password form)) in
  (outcome = inr true ->
   NewUserPage_post create_new_user form = inr RedirectHome)
  /\ (outcome = inr false ->
      NewUserPage_post create_new_user form
      = inr (RenderForm users
               {| email_error := None; password_error := None;
                  password_confirmation_error := None |}))
  /\ (forall err,
        outcome = inl (AppHelperException err) ->
        NewUserPage_post create_new_user form
        = inr (RenderForm users
                 {| email_error := Some err; password_error := None;
                    password_confirmation_error := None |})).
Proof.
  intros He Hp Hc users outcome.
  assert (Hok : error_set (email_error (parse_new_user_post form))
                || error_set (password_error (parse_new_user_post form))
                || error_set (password_confirmation_error
                                (parse_new_user_post form)) = false)
    by (apply error_set_parse; auto).
  unfold NewUserPage_post, process_new_user_post. rewrite Hok.
  fold outcome. fold users.
  repeat split.
  - intros ->. reflexivity.
  - intros ->. f_equal. f_equal.
    destruct (parse_new_user_post form); simpl in *; congruence.
  - intros err ->. rewrite Hp, Hc. reflexivity.
Qed.

Lemma valid_form_follows_helper_witness :
  NewUserPage_post (fun _ _ => inr true)
    {| user_email := "foo@boo.goo"; user_password := "secret";
       user_password_confirmation := "secret" |} = inr RedirectHome.
Proof.
  apply (valid_form_follows_helper (fun _ _ => inr true)
           {| user_email := "foo@boo.goo"; user_password := "secret";
              user_password_confirmation := "secret" |});
    reflexivity.
Defined.

(** ** The email check *)

Lemma span_spec (p : ascii -> bool) (s : string) :
  s = (fst (span p s) ++ snd (span p s))%string
  /\ all_chars p (fst (span p s)) = true
  /\ (snd (span p s) = ""
      \/ exists c r, snd (span p s) = String c r /\ p c = false).
Proof.
  induction s as [| c s (IH1 & IH2 & IH3)]; simpl.
  - auto.
  - destruct (p c) eqn:Hp.
    + destruct (span p s) as [taken left]. simpl in *.
      split; [now f_equal |]. split; [now rewrite Hp |]. exact IH3.
    + simpl. split; [reflexivity |]. split; [reflexivity |].
      right. now exists c, s.
Qed.

Lemma span_app (p : ascii -> bool) (a b : string) :
  all_chars p a = true ->
  (b = "" \/ exists c r, b = String c r /\ p c = false) ->
  span p (a ++ b) = (a, b).
Proof.
  intros Ha Hb. induction a as [| x a IH]; simpl in *.
  - destruct Hb as [-> | (c & r & -> & Hc)]; simpl; [reflexivity |].
    now rewrite Hc.
  - apply andb_true_iff in Ha as [Hx Ha]. rewrite Hx, (IH Ha). reflexivity.
Qed.

Lemma count_char_app (c : ascii) (a b : string) :
  count_char c (a ++ b) = (count_char c a + count_char c b)%nat.
Proof.
  induction a as [| x a IH]; simpl; [reflexivity |]. rewrite IH. lia.
Qed.

Lemma not_at_space_no_at (s : string) :
  all_chars not_at_space s = true -> count_char "@" s = 0%nat.
Proof.
  induction s as [| c s IH]; simpl; [reflexivity |].
  intros H. apply andb_true_iff in H as [Hc Hs].
  unfold not_at_space in Hc. apply andb_true_iff in Hc as [Hat _].
  destruct (Ascii.eqb c "@"); [discriminate |]. now rewrite IH.
Qed.

Lemma matches_user_email_shape (s : string) :
  matches_user_email s = true ->
  exists c local domain tail,
    s = String c (local ++ String "@" (domain ++ tail))
    /\ is_word c = true
    /\ all_chars not_at_space local = true
    /\ all_chars not_at_space domain = true
    /\ (2 <= String.length domain)%nat
    /\ (tail = "" \/ tail = newline).
Proof.
  destruct s as [| c rest]; [discriminate |].
  unfold matches_user_email.
  intros H. apply andb_true_iff in H as [Hw H].
  destruct (span_spec not_at_space rest) as (Hrest & Hlocal & _).
  destruct (snd (span not_at_space rest)) as [| a domain'] eqn:Hafter;
    [discriminate |].
  destruct (Ascii.eqb_spec a "@") as [-> | Hne].
  - cbv beta iota in H.
    destruct (span_spec not_at_space domain') as (Hdom & Hd & _).
    apply andb_true_iff in H as [Hlen Htail].
    apply Nat.leb_le in Hlen.
    exists c, (fst (span not_at_space rest)),
      (fst (span not_at_space domain')), (snd (span not_at_space domain')).
    split; [now rewrite <- Hdom, <- Hrest |].
    repeat split; try assumption.
    apply orb_true_iff in Htail as [E | E]; apply String.eqb_eq in E; auto.
  - destruct a as [[] [] [] [] [] [] [] []]; try discriminate.
    now contradiction Hne.
Qed.

Lemma shape_matches_user_email (c : ascii) (local domain tail : string) :
  is_word c = true ->
  all_chars not_at_space local = true ->
  all_chars not_at_space domain = true ->
  (2 <= String.length domain)%nat ->
  tail = "" \/ tail = newline ->
  matches_user_email (String c (local ++ String "@" (domain ++ tail))) = true.
Proof.
  intros Hw Hl Hd Hlen Htail. unfold matches_user_email. rewrite Hw.
  rewrite (span_app not_at_space local (String "@" (domain ++ tail)) Hl);
    [| right; now exists "@"%char, (domain ++ tail)%string].
  cbn [snd andb].
  rewrite (span_app not_at_space domain tail Hd).
  - cbn [fst snd]. apply Nat.leb_le in Hlen. rewrite Hlen.
    destruct Htail as [-> | ->]; reflexivity.
  - destruct Htail as [-> | ->]; [now left | right].
    now exists (ascii_of_nat 10), "".
Qed.

(** X23: the email check accepts exactly the texts made of a word character,
    a run without at sign and white space, the at sign, a run of at least
    two characters without at sign and white space, and nothing more than an
    optional final newline.  No dot is asked for in the domain. *)
Theorem accepted_email_shape (s : string) :
  matches_user_email s = true
  <-> exists c local domain tail,
        s = String c (local ++ String "@" (domain ++ tail))
        /\ is_word c = true
        /\ all_chars not_at_space local = true
        /\ all_chars not_at_space domain = true
        /\ (2 <= String.length domain)%nat
        /\ (tail = "" \/ tail = newline).
Proof.
  split; [apply matches_user_email_shape |].
  intros (c & local & domain & tail & -> & Hw & Hl & Hd & Hlen & Htail).
  now apply shape_matches_user_email.
Qed.

Lemma is_word_not_at (c : ascii) : is_word c = true -> Ascii.eqb c "@" = false.
Proof.
  intros Hw. destruct (Ascii.eqb_spec c "@") as [-> | _]; [| reflexivity].
  discriminate.
Qed.

(** X24: an email the form accepts has exactly one at sign and at least
    four characters. *)
Theorem accepted_email_has_one_at (form : NewUserForm) :
  email_error (parse_new_user_post form) = None ->
  count_char "@" (cgi_escape (user_email form)) = 1%nat
  /\ (4 <= String.length (cgi_escape (user_email form)))%nat.
Proof.
  unfold parse_new_user_post. cbn [email_error].
  destruct (matches_user_email (cgi_escape (user_email form))) eqn:M;
    [intros _ | discriminate].
  apply matches_user_email_shape in M
    as (c & local & domain & tail & -> & Hw & Hl & Hd & Hlen & Htail).
  split.
  - cbn [count_char]. rewrite (is_word_not_at c Hw), count_char_app.
    cbn [count_char]. rewrite count_char_app.
    rewrite (not_at_space_no_at local Hl), (not_at_space_no_at domain Hd).
    destruct Htail as [-> | ->]; reflexivity.
  - cbn [String.length]. rewrite string_length_app. cbn [String.length].
    rewrite string_length_app. lia.
Qed.

Lemma accepted_email_has_one_at_witness :
  count_char "@" (cgi_escape "foo@boo.goo") = 1%nat
  /\ (4 <= String.length (cgi_escape "foo@boo.goo"))%nat.
Proof.
  apply (accepted_email_has_one_at
           {| user_email := "foo@boo.goo"; user_password := "secret";
              user_password_confirmation := "secret" |}).
  reflexivity.
Defined.

(** ** Permission updates *)

Section PermissionFacts.
Variables add_user_permissions remove_user_permissions
  : list PermCall -> string -> string -> bool.
Variables (perms : list string) (req : Request).

Local Abbreviation update :=
  (update_permission add_user_permissions remove_user_permissions req).

Lemma update_permission_asked (email perm : string)
  (acc : string * list PermCall) :
  In perm perms ->
  (exists field, In (field, email) (POST req)
                 /\ String.prefix "user_permission_" field = true) ->
  (forall call, In call (snd acc) -> call_asked_for perms req call) ->
  forall call, In call (snd (update email acc perm)) ->
               call_asked_for perms req call.
Proof.
  intros Hperm Hfield Hacc call. unfold update_permission. cbv zeta.
  destruct (str_in (email ++ "-" ++ perm) (map fst (POST req))) eqn:Hkey;
    cbn [andb negb].
  - destruct (String.eqb_spec
                (request_get ("CURRENT-" ++ email ++ "-" ++ perm) req) "False")
      as [Hcur | _]; [| apply Hacc].
    apply host_in_In in Hkey.
    destruct (add_user_permissions (snd acc) email perm); cbn [snd];
      intros Hin; apply in_app_iff in Hin as [Hin | [<- | []]];
      try (now apply Hacc); cbn [call_asked_for]; auto.
  - destruct (String.eqb_spec
                (request_get ("CURRENT-" ++ email ++ "-" ++ perm) req) "True")
      as [Hcur | _]; [| apply Hacc].
    assert (Hno : ~ In (email ++ "-" ++ perm)%string (map fst (POST req))).
    { intros Hin. apply host_in_In in Hin.
      unfold host_in, str_in in *. congruence. }
    destruct (remove_user_permissions (snd acc) email perm); cbn [snd];
      intros Hin; apply in_app_iff in Hin as [Hin | [<- | []]];
      try (now apply Hacc); cbn [call_asked_for]; auto.
Qed.

Lemma parse_calls_asked (call : PermCall) :
  In call
    (snd (parse_update_user_permissions add_user_permissions
            remove_user_permissions perms req)) ->
  call_asked_for perms req call.
Proof.
  unfold parse_update_user_permissions.
  assert (Inner : forall email ps acc,
             incl ps perms ->
             (exists field, In (field, email) (POST req)
                            /\ String.prefix "user_permission_" field = true) ->
             (forall c, In c (snd acc) -> call_asked_for perms req c) ->
             forall c, In c (snd (fold_left (update email) ps acc)) ->
                       call_asked_for perms req c).
  { intros email ps. induction ps as [| p ps IH]; intros acc Hincl Hf Hacc;
      simpl; [exact Hacc |].
    apply IH; [intros x Hx; apply Hincl; now right | exact Hf |].
    apply update_permission_asked; [apply Hincl; now left | exact Hf | exact Hacc]. }
  assert (Outer : forall fields acc,
             incl fields (POST req) ->
             (forall c, In c (snd acc) -> call_asked_for perms req c) ->
             forall c,
               In c (snd (fold_left
                            (fun acc field =>
                               if String.prefix "user_permission_" (fst field)
                               then fold_left (update (snd field)) perms acc
                               else acc) fields acc)) ->
               call_asked_for perms req c).
  { induction fields as [| [f e] fields IH]; intros acc Hincl Hacc; simpl;
      [exact Hacc |].
    apply IH; [intros x Hx; apply Hincl; now right |].
    destruct (String.prefix "user_permission_" f) eqn:Hp; [| exact Hacc].
    apply Inner; [apply incl_refl | | exact Hacc].
    exists f. split; [apply Hincl; now left | exact Hp]. }
  apply Outer; [apply incl_refl | intros c []].
Qed.

Lemma update_permission_unchanged (email perm : string)
  (acc : string * list PermCall) :
  (In (email ++ "-" ++ perm)%string (map fst (POST req)) ->
   request_get ("CURRENT-" ++ email ++ "-" ++ perm) req <> "False") ->
  (~ In (email ++ "-" ++ perm)%string (map fst (POST req)) ->
   request_get ("CURRENT-" ++ email ++ "-" ++ perm) req <> "True") ->
  update email acc perm = acc.
Proof.
  intros Hin Hout. unfold update_permission. cbv zeta.
  destruct (str_in (email ++ "-" ++ perm) (map fst (POST req))) eqn:Hkey;
    cbn [andb negb].
  - apply host_in_In in Hkey. apply Hin in Hkey.
    apply String.eqb_neq in Hkey. now rewrite Hkey.
  - assert (Hno : ~ In (email ++ "-" ++ perm)%string (map fst (POST req))).
    { intros Hc. apply host_in_In in Hc.
      unfold host_in, str_in in *. congruence. }
    apply Hout in Hno. apply String.eqb_neq in Hno. now rewrite Hno.
Qed.
End PermissionFacts.

(** X25: every call the permission form makes to the helper is asked for by
    the form: the email is the value of a field whose name starts with
    user_permission_, the permission is one of the permission items, and
    the call enables a permission that is checked and was off (CURRENT is
    False) or disables one that is not checked and was on (CURRENT is
    True). *)
Theorem permission_calls_are_asked_for
  (add_user_permissions remove_user_permissions
     : list PermCall -> string -> string -> bool)
  (perms : list string) (req : Request) (call : PermCall) :
  In call
    (snd (parse_update_user_permissions add_user_permissions
            remove_user_permissions perms req)) ->
  call_asked_for perms req call.
Proof. apply parse_calls_asked. Qed.

Lemma permission_calls_are_asked_for_witness :
  call_asked_for ["upload_app"] enabling_form
    (AddPermission "a@b.c" "upload_app").
Proof.
  apply (permission_calls_are_asked_for (fun _ _ _ => true)
           (fun _ _ _ => true)).
  vm_compute. left. reflexivity.
Defined.

(** X26: one submission never enables and disables the same permission of
    the same user. *)
Theorem permission_not_enabled_and_disabled
  (add_user_permissions remove_user_permissions
     : list PermCall -> string -> string -> bool)
  (perms : list string) (req : Request) (email perm : string) :
  In (AddPermission email perm)
    (snd (parse_update_user_permissions add_user_permissions
            remove_user_permissions perms req)) ->
  ~ In (RemovePermission email perm)
      (snd (parse_update_user_permissions add_user_permissions
              remove_user_permissions perms req)).
Proof.
  intros Hadd Hrem.
  apply parse_calls_asked in Hadd as (_ & _ & Hin & _).
  apply parse_calls_asked in Hrem as (_ & _ & Hout & _).
  contradiction.
Qed.

Lemma permission_not_enabled_and_disabled_witness :
  ~ In (RemovePermission "a@b.c" "upload_app")
      (snd (parse_update_user_permissions (fun _ _ _ => true)
              (fun _ _ _ => true) ["upload_app"] enabling_form)).
Proof.
  apply (permission_not_enabled_and_disabled (fun _ _ _ => true)
           (fun _ _ _ => true) ["upload_app"] enabling_form).
  vm_compute. left. reflexivity.
Defined.

(** X27: submitting the form as it was rendered changes nothing: when, for
    every user field and permission item, a checked box was on before (not
    False) and an unchecked one was off before (not True), the message is
    empty and the helper is never called. *)
Theorem unchanged_form_makes_no_call
  (add_user_permissions remove_user_permissions
     : list PermCall -> string -> string -> bool)
  (perms : list string) (req : Request) :
  (forall field email perm,
      In (field, email) (POST req) -> In perm perms ->
      (In (email ++ "-" ++ perm)%string (map fst (POST req)) ->
       request_get ("CURRENT-" ++ email ++ "-" ++ perm) req <> "False")
      /\ (~ In (email ++ "-" ++ perm)%string (map fst (POST req)) ->
          request_get ("CURRENT-" ++ email ++ "-" ++ perm) req <> "True")) ->
  parse_update_user_permissions add_user_permissions remove_user_permissions
    perms req = ("", []).
Proof.
  intros Hsame. unfold parse_update_user_permissions.
  assert (Inner : forall field email ps acc,
             In (field, email) (POST req) -> incl ps perms ->
             fold_left
               (update_permission add_user_permissions remove_user_permissions
                  req email) ps acc = acc).
  { intros field email ps. induction ps as [| p ps IH]; intros acc Hf Hincl;
      simpl; [reflexivity |].
    destruct (Hsame field email p Hf (Hincl p (or_introl eq_refl)))
      as [Hin Hout].
    rewrite update_permission_unchanged by assumption.
    apply IH; [exact Hf | intros x Hx; apply Hincl; now right]. }
  assert (Outer : forall fields acc,
             incl fields (POST req) ->
             fold_left
               (fun acc field =>
                  if String.prefix "user_permission_" (fst field)
                  then fold_left
                         (update_permission add_user_permissions
                            remove_user_permissions req (snd field)) perms acc
                  else acc) fields acc = acc).
  { induction fields as [| [f e] fields IH]; intros acc Hincl; simpl;
      [reflexivity |].
    destruct (String.prefix "user_permission_" f).
    - rewrite (Inner f e perms acc (Hincl _ (or_introl eq_refl)) (incl_refl _)).
      apply IH. intros x Hx. apply Hincl. now right.
    - apply IH. intros x Hx. apply Hincl. now right. }
  apply Outer, incl_refl.
Qed.

Lemma unchanged_form_makes_no_call_witness :
  parse_update_user_permissions (fun _ _ _ => true) (fun _ _ _ => true)
    ["upload_app"] unchanged_form = ("", []).
Proof.
  apply (unchanged_form_makes_no_call (fun _ _ _ => true) (fun _ _ _ => true)
           ["upload_app"] unchanged_form).
  intros field email perm Hf [<- | []].
  destruct Hf as [[= <- <-] | [[= <- <-] | [[= <- <-] | []]]].
  - split; [intros _; vm_compute; discriminate |].
    intros Hno. exfalso. apply Hno. vm_compute. auto.
  - split; intros _; vm_compute; discriminate.
  - split; intros _; vm_compute; discriminate.
Defined.
